(** * Stock analytics dashboard: the metrics pipeline of [stock_dashboard.py]

    A shallow embedding of the data-frame computations of the script
    (lines 44-58, 72, 90, 112, 120-122 and 131-148) and the proofs of the
    properties stated about them.

    Numbers.  The script computes on [float64] columns.  The embedding keeps
    the special values of that type ([NaN], which is also the data frame's
    null marker, and the two infinities) and their arithmetic, and computes
    exactly, on rationals, where the script rounds.  A signed zero is not
    distinguished from zero.  Square roots are never evaluated: a
    standard deviation is kept as the root of a rational radicand and a
    correlation as a rational over the root of a rational, which is exact,
    and their meaning as real numbers is given by [root_R] and [surd_R]. *)

From Stdlib Require Import Reals Qreals.
From Stdlib Require Import QArith ZArith DecimalString String Ascii Bool Arith Psatz List.
From Stdlib Require Import Sorting.Sorted Sorting.Permutation.
From Stdlib Require Import Setoid Morphisms.
Import ListNotations.

Local Open Scope Q_scope.
Local Open Scope string_scope.
Local Open Scope list_scope.

(** ** Float values *)

Inductive fval : Type :=
| Num (q : Q)
| PInf
| NInf
| NaN.

Definition isna (v : fval) : bool :=
  match v with NaN => true | _ => false end.

Definition fadd (a b : fval) : fval :=
  match a, b with
  | NaN, _ | _, NaN => NaN
  | Num x, Num y => Num (x + y)
  | PInf, NInf | NInf, PInf => NaN
  | PInf, _ | _, PInf => PInf
  | NInf, _ | _, NInf => NInf
  end.

Definition fsub (a b : fval) : fval :=
  match a, b with
  | NaN, _ | _, NaN => NaN
  | Num x, Num y => Num (x - y)
  | PInf, PInf | NInf, NInf => NaN
  | PInf, _ | _, NInf => PInf
  | NInf, _ | _, PInf => NInf
  end.

(** The infinity whose sign is the sign of [q]; [NaN] for [q == 0]. *)
Definition inf_of_sign (q : Q) : fval :=
  match (q ?= 0)%Q with
  | Eq => NaN
  | Gt => PInf
  | Lt => NInf
  end.

Definition fmul (a b : fval) : fval :=
  match a, b with
  | NaN, _ | _, NaN => NaN
  | Num x, Num y => Num (x * y)
  | PInf, Num y | Num y, PInf => inf_of_sign y
  | NInf, Num y | Num y, NInf => inf_of_sign (- y)
  | PInf, PInf | NInf, NInf => PInf
  | PInf, NInf | NInf, PInf => NInf
  end.

Definition fdiv (a b : fval) : fval :=
  match a, b with
  | NaN, _ | _, NaN => NaN
  | Num x, Num y => if Qeq_bool y 0 then inf_of_sign x else Num (x / y)
  | Num _, (PInf | NInf) => Num 0
  | PInf, Num y => if Qle_bool 0 y then PInf else NInf
  | NInf, Num y => if Qle_bool 0 y then NInf else PInf
  | (PInf | NInf), (PInf | NInf) => NaN
  end.

(** [a <= b] on values that are not [NaN]. *)
Definition fleb (a b : fval) : bool :=
  match a, b with
  | NaN, _ | _, NaN => false
  | NInf, _ => true
  | _, PInf => true
  | Num x, Num y => Qle_bool x y
  | _, _ => false
  end.

(** The same value: rationals up to [==]. *)
Definition feq (a b : fval) : Prop :=
  match a, b with
  | Num x, Num y => x == y
  | PInf, PInf | NInf, NInf | NaN, NaN => True
  | _, _ => False
  end.

Definition feqb (a b : fval) : bool :=
  match a, b with
  | Num x, Num y => Qeq_bool x y
  | PInf, PInf | NInf, NInf | NaN, NaN => true
  | _, _ => false
  end.

Infix "=f=" := feq (at level 70, no associativity).

(** ** Sorting

    [sort_by leb] is the stable insertion sort: equal keys keep the order
    they came in.  The script sorts with the library's default kind, whose
    order among equal keys is not fixed; no statement below depends on it. *)

Section Sort.
Context {A : Type} (leb : A -> A -> bool).

Fixpoint insert_by (x : A) (l : list A) : list A :=
  match l with
  | [] => [x]
  | y :: r => if leb x y then x :: l else y :: insert_by x r
  end.

Fixpoint sort_by (l : list A) : list A :=
  match l with
  | [] => []
  | x :: r => insert_by x (sort_by r)
  end.
End Sort.

(** ** Price records *)

Record Date : Type := mkDate { year : Z; month_of_year : Z; day : Z }.

Definition date_leb (a b : Date) : bool :=
  if (year a <? year b)%Z then true
  else if (year b <? year a)%Z then false
  else if (month_of_year a <? month_of_year b)%Z then true
  else if (month_of_year b <? month_of_year a)%Z then false
  else (day a <=? day b)%Z.

(** The label of [df["date"].dt.to_period("M").astype(str)], "YYYY-MM",
    kept as the pair it prints. *)
Definition Month : Type := (Z * Z)%type.

Definition to_period_M (d : Date) : Month := (year d, month_of_year d).

Definition month_eqb (a b : Month) : bool :=
  ((fst a =? fst b) && (snd a =? snd b))%Z.

(** A row of a ticker's table as [load_data] returns it.  The pipeline reads
    [ticker], [date] and [close] only; [close] is a decimal of the store. *)
Record PriceRecord : Type := mkPrice {
  ticker : string;
  date : Date;
  close : Q
}.

(** ** Strings: [str.strip().str.lower()] on ASCII

    A name is modelled where it is made of ASCII characters: there the white
    space [strip] removes is the characters 9-13 and 28-32 and [lower]
    changes the letters A-Z alone.  What the two methods do to other
    characters is not modelled; statements about names say so with
    [ascii_only]. *)

Definition is_space (c : ascii) : bool :=
  let n := nat_of_ascii c in
  ((9 <=? n) && (n <=? 13) || (28 <=? n) && (n <=? 32))%nat.

Definition lower_ascii (c : ascii) : ascii :=
  let n := nat_of_ascii c in
  if ((65 <=? n) && (n <=? 90))%nat then ascii_of_nat (n + 32) else c.

Fixpoint lstrip (s : string) : string :=
  match s with
  | String c r => if is_space c then lstrip r else s
  | EmptyString => EmptyString
  end.

Fixpoint rstrip (s : string) : string :=
  match s with
  | String c r =>
      match rstrip r with
      | EmptyString => if is_space c then EmptyString else String c EmptyString
      | r' => String c r'
      end
  | EmptyString => EmptyString
  end.

Definition str_strip (s : string) : string := rstrip (lstrip s).

Fixpoint str_lower (s : string) : string :=
  match s with
  | String c r => String (lower_ascii c) (str_lower r)
  | EmptyString => EmptyString
  end.

(** ** Group-by

    A column is a list, aligned with the rows by position.  [group_values]
    is the column of one group, in row order; [scatter] puts per-group
    results back on the rows of their groups, each row taking the next value
    of its own group. *)

Section GroupBy.
Context {A B : Type}.

Definition group_values (keys : list string) (vals : list A) (g : string)
  : list A :=
  map snd (filter (fun kv => String.eqb (fst kv) g) (combine keys vals)).

Fixpoint scatter (dflt : B) (keys : list string) (res : string -> list B)
  : list B :=
  match keys with
  | [] => []
  | k :: ks =>
      hd dflt (res k)
      :: scatter dflt ks
           (fun g => if String.eqb g k then tl (res g) else res g)
  end.

(** [df.groupby(key)[col].transform(f)] and the group-wise column
    methods. *)
Definition groupby_transform (dflt : B) (f : list A -> list B)
    (keys : list string) (vals : list A) : list B :=
  scatter dflt keys (fun g => f (group_values keys vals g)).
End GroupBy.

Fixpoint dedup (l : list string) : list string :=
  match l with
  | [] => []
  | x :: r => x :: filter (fun y => negb (String.eqb y x)) (dedup r)
  end.

(** The keys of a group-by, sorted ([sort=True]). *)
Definition group_keys (keys : list string) : list string :=
  sort_by String.leb (dedup keys).

(** [groupby(key)[col].agg(f)]: one entry per group, in key order. *)
Definition groupby_agg {A B : Type} (f : list A -> B)
    (keys : list string) (vals : list A) : list (string * B) :=
  map (fun g => (g, f (group_values keys vals g))) (group_keys keys).

(** ** Series methods *)

Definition fillna (d : fval) (xs : list fval) : list fval :=
  map (fun v => if isna v then d else v) xs.

Definition dropna (xs : list fval) : list fval :=
  filter (fun v => negb (isna v)) xs.

(** [x.shift(1)] *)
Definition shift1 (xs : list fval) : list fval :=
  match xs with
  | [] => []
  | _ => NaN :: removelast xs
  end.

Fixpoint zip_with {A B C : Type} (f : A -> B -> C) (l : list A) (m : list B)
  : list C :=
  match l, m with
  | a :: l', b :: m' => f a b :: zip_with f l' m'
  | _, _ => []
  end.

(** [x.pct_change(fill_method=None)] is [x / x.shift(1) - 1]. *)
Definition pct_change (xs : list fval) : list fval :=
  zip_with (fun x p => fsub (fdiv x p) (Num 1)) xs (shift1 xs).

(** [x.cumprod()]: the running product; a null stays null and is skipped. *)
Fixpoint cumprod_from (acc : fval) (xs : list fval) : list fval :=
  match xs with
  | [] => []
  | x :: r =>
      if isna x then NaN :: cumprod_from acc r
      else fmul acc x :: cumprod_from (fmul acc x) r
  end.

Fixpoint cumprod (xs : list fval) : list fval :=
  match xs with
  | [] => []
  | x :: r => if isna x then NaN :: cumprod r else x :: cumprod_from x r
  end.

(** First and last value of a group that is not null. *)
Definition first_valid (xs : list fval) : fval := hd NaN (dropna xs).
Definition last_valid (xs : list fval) : fval := last (dropna xs) NaN.

Definition fsum (xs : list fval) : fval := fold_left fadd xs (Num 0).

Definition count (xs : list fval) : nat := length (dropna xs).

Definition of_nat (n : nat) : fval := Num (inject_Z (Z.of_nat n)).

(** [x.mean()], nulls skipped. *)
Definition mean (xs : list fval) : fval :=
  match dropna xs with
  | [] => NaN
  | ys => fdiv (fsum ys) (of_nat (length ys))
  end.

(** ** The script: preprocessing and the return columns (lines 24-58) *)

Definition nifty_sector_map : list (string * string) := [
  ("adaniports", "Services"); ("adanienterprises", "Services");
  ("adani_green", "Power"); ("adani_total_gas", "Oil & Gas");
  ("adani_power", "Power"); ("asianpaints", "Consumer Goods");
  ("axisbank", "Banking"); ("baidulifesciences", "Pharma");
  ("bharti_airtel", "Services"); ("bajaj_auto", "Auto");
  ("bajaj_finance", "Finance"); ("bajaj_finserv", "Finance");
  ("bharatforge", "Auto"); ("bharat_pe", "Services");
  ("bharat_heavy_electricals", "Industrial");
  ("bharat_petroleum", "Oil & Gas"); ("bhp", "Mining");
  ("bpcl", "Oil & Gas"); ("castrol_india", "Oil & Gas");
  ("cipla", "Pharma"); ("coal_india", "Mining"); ("divis_labs", "Pharma");
  ("dr_reddys", "Pharma"); ("eicher_motors", "Auto"); ("gail", "Oil & Gas");
  ("grasim_industries", "Industrial"); ("hcl_technologies", "Technology");
  ("hdfc_bank", "Banking"); ("hdfc", "Finance"); ("hero_motocorp", "Auto");
  ("hindalco_industries", "Metals"); ("hindustan_unilever", "Consumer Goods");
  ("icici_bank", "Banking"); ("indusind_bank", "Banking");
  ("infosys", "Technology"); ("jsw_steel", "Metals");
  ("kotak_mahindra_bank", "Banking"); ("larsen_toubro", "Industrial");
  ("mahindra", "Auto"); ("maruti_suzuki", "Auto"); ("ntpc", "Power");
  ("ongc", "Oil & Gas"); ("power_grid", "Power"); ("reliance", "Oil & Gas");
  ("sbicard", "Finance"); ("state_bank_of_india", "Banking");
  ("sun_pharma", "Pharma"); ("tata_consultancy_services", "Technology");
  ("tata_motors", "Auto"); ("tata_steel", "Metals");
  ("tech_mahindra", "Technology"); ("titans", "Consumer Goods");
  ("ultratech_cement", "Cement"); ("wipro", "Technology")
].

Fixpoint dict_get {V : Type} (m : list (string * V)) (k : string) : option V :=
  match m with
  | [] => None
  | (k', v) :: r => if String.eqb k' k then Some v else dict_get r k
  end.

(** [df["ticker"].map(nifty_sector_map).fillna("Unknown")], on one ticker. *)
Definition sector_of (t : string) : string :=
  match dict_get nifty_sector_map t with
  | Some s => s
  | None => "Unknown"
  end.

Definition DataFrame : Type := list PriceRecord.

Definition normalise (r : PriceRecord) : PriceRecord :=
  mkPrice (str_lower (str_strip (ticker r))) (date r) (close r).

Definition by_date (a b : PriceRecord) : bool := date_leb (date a) (date b).

(** Lines 46 and 48: the frame every later line works on. *)
Definition preprocess (raw : DataFrame) : DataFrame :=
  sort_by by_date (map normalise raw).

Definition col_ticker (df : DataFrame) : list string := map ticker df.

Definition col_close (df : DataFrame) : list fval :=
  map (fun r => Num (close r)) df.

Definition col_sector (df : DataFrame) : list string :=
  map (fun r => sector_of (ticker r)) df.

Definition col_month (df : DataFrame) : list Month :=
  map (fun r => to_period_M (date r)) df.

(** Line 51. *)
Definition col_daily_return (df : DataFrame) : list fval :=
  groupby_transform NaN pct_change (col_ticker df) (col_close df).

(** Line 53: [lambda x: (1 + x.fillna(0)).cumprod()]. *)
Definition compound (x : list fval) : list fval :=
  cumprod (map (fadd (Num 1)) (fillna (Num 0) x)).

Definition col_cumulative_return (df : DataFrame) : list fval :=
  groupby_transform NaN compound (col_ticker df) (col_daily_return df).

(** A series: its name, and its values by index label. *)
Record Series : Type := mkSeries {
  s_name : option string;
  s_index_name : option string;
  s_items : list (string * fval)
}.

Definition series_get (s : Series) (k : string) : fval :=
  match dict_get (s_items s) k with
  | Some v => v
  | None => NaN
  end.

Definition option_string_eqb (a b : option string) : bool :=
  match a, b with
  | Some x, Some y => String.eqb x y
  | None, None => true
  | _, _ => false
  end.

(** [a op b] on two series: the result keeps the name the operands share,
    and is unnamed otherwise.  Both operands of the script carry the same
    index, the group keys of one frame. *)
Definition series_binop (op : fval -> fval -> fval) (a b : Series) : Series :=
  mkSeries
    (if option_string_eqb (s_name a) (s_name b) then s_name a else None)
    (s_index_name a)
    (map (fun kv => (fst kv, op (snd kv) (series_get b (fst kv)))) (s_items a)).

(** Lines 55-56, column [close]: [df.groupby("ticker").last()["close"]]. *)
Definition latest_close (df : DataFrame) : Series :=
  mkSeries (Some "close") (Some "ticker")
    (groupby_agg last_valid (col_ticker df) (col_close df)).

Definition first_close (df : DataFrame) : Series :=
  mkSeries (Some "close") (Some "ticker")
    (groupby_agg first_valid (col_ticker df) (col_close df)).

(** Line 57. *)
Definition df_yearly (df : DataFrame) : Series :=
  series_binop fdiv
    (series_binop fsub (latest_close df) (first_close df))
    (first_close df).

(** Line 58: [df["ticker"].map(df_yearly)]. *)
Definition col_yearly_return (df : DataFrame) : list fval :=
  map (series_get (df_yearly df)) (col_ticker df).

(** The records of ticker [g], in the order of the frame. *)
Definition records_of (g : string) (df : DataFrame) : DataFrame :=
  filter (fun r => String.eqb (ticker r) g) df.

Definition closes_of (g : string) (df : DataFrame) : list Q :=
  map close (records_of g df).

(** A column on the records of [g]. *)
Definition column_of (g : string) (df : DataFrame) (col : list fval)
  : list fval :=
  group_values (col_ticker df) col g.

Definition ymd (y m dd : Z) : Date := mkDate y m dd.

Definition scenario_A_B : DataFrame := [
  mkPrice "A" (ymd 2024 1 1) 10; mkPrice "b" (ymd 2024 1 1) 5;
  mkPrice " a" (ymd 2024 1 3) (99 # 10); mkPrice "B " (ymd 2024 1 2) 5;
  mkPrice "a" (ymd 2024 1 2) 11; mkPrice "b" (ymd 2024 1 3) 5
].

Definition group_size (keys : list string) (g : string) : nat :=
  List.length (filter (fun k => String.eqb k g) keys).

(** The factors line 53 multiplies: [1 + x.fillna(0)]. *)
Definition growth_factors (dr : list fval) : list fval :=
  map (fun x => fadd (Num 1) (if isna x then Num 0 else x)) dr.

(** The product of a list of values, from the left. *)
Definition fprod (xs : list fval) : fval := fold_left fmul xs (Num 1).

Definition gapped : DataFrame := [
  mkPrice "x" (ymd 2024 3 15) 6; mkPrice "x" (ymd 2024 1 1) 4;
  mkPrice "x" (ymd 2024 1 2) 5
].

(** ** Ranking, sector performance, monthly returns and the exports *)

(** [sort_values(ascending=False)]: the rows with a value, largest first,
    then the rows whose value is null. *)
Definition sort_values_desc {A : Type} (key : A -> fval) (l : list A)
  : list A :=
  sort_by (fun a b => fleb (key b) (key a))
    (filter (fun a => negb (isna (key a))) l)
  ++ filter (fun a => isna (key a)) l.

(** [head(n)] *)
Definition head {A : Type} (n : nat) (l : list A) : list A := firstn n l.

(** Line 112. *)
Definition sector_perf (df : DataFrame) : list (string * fval) :=
  sort_values_desc snd
    (groupby_agg mean (col_sector df) (col_yearly_return df)).

(** The square root of [radicand], kept unevaluated; it is null when the
    radicand is, and roots compare as their radicands do. *)
Inductive root : Type := Sqrt (radicand : fval).

Definition radicand (r : root) : fval := match r with Sqrt v => v end.

(** Sample variance, nulls skipped: null below two observations. *)
Definition var (xs : list fval) : fval :=
  let ys := dropna xs in
  let n := List.length ys in
  if (n <=? 1)%nat then NaN
  else
    let m := fdiv (fsum ys) (of_nat n) in
    fdiv (fsum (map (fun y => fmul (fsub y m) (fsub y m)) ys))
         (of_nat (n - 1)).

(** [x.std()] *)
Definition std (xs : list fval) : root := Sqrt (var xs).

(** Line 90. *)
Definition volatility (df : DataFrame) : list (string * root) :=
  head 10
    (sort_values_desc (fun kv => radicand (snd kv))
       (groupby_agg std (col_ticker df) (col_daily_return df))).

(** Lines 133-136. *)
Record MonthlyRow : Type := mkMonthly {
  m_ticker : string;
  m_first : fval;
  m_last : fval;
  m_monthly_return : fval
}.

Definition monthly (df : DataFrame) (selected_month : Month) : DataFrame :=
  filter (fun r => month_eqb (to_period_M (date r)) selected_month) df.

Definition monthly_agg (df : DataFrame) (selected_month : Month)
  : list MonthlyRow :=
  let mdf := monthly df selected_month in
  map (fun kv =>
         let f := fst (snd kv) in
         let l := snd (snd kv) in
         mkMonthly (fst kv) f l (fdiv (fsub l f) f))
      (groupby_agg (fun xs => (first_valid xs, last_valid xs))
         (col_ticker mdf) (col_close mdf)).

Definition monthly_return (df : DataFrame) (selected_month : Month)
  : list MonthlyRow :=
  sort_values_desc m_monthly_return (monthly_agg df selected_month).

(** Line 131: the months offered by the selector. *)
Definition month_leb (a b : Month) : bool :=
  if (fst a <? fst b)%Z then true
  else if (fst b <? fst a)%Z then false
  else (snd a <=? snd b)%Z.

Fixpoint unique_months (l : list Month) : list Month :=
  match l with
  | [] => []
  | x :: r => x :: filter (fun y => negb (month_eqb y x)) (unique_months r)
  end.

Definition months (df : DataFrame) : list Month :=
  sort_by month_leb (unique_months (col_month df)).

(** A column label is a string or, for an unnamed series, an integer. *)
Inductive label : Type :=
| LStr (s : string)
| LInt (z : Z).

Definition label_eqb (a b : label) : bool :=
  match a, b with
  | LStr x, LStr y => String.eqb x y
  | LInt x, LInt y => (x =? y)%Z
  | _, _ => false
  end.

Inductive cell : Type :=
| CStr (s : string)
| CNum (v : fval).

(** A table with labelled columns, and the text of [to_csv(index=False)]
    as its header line and its rows; the digits a number prints as are
    left out. *)
Record Table : Type := mkTable {
  t_columns : list label;
  t_rows : list (list cell)
}.

(** [s.reset_index()]: the index becomes the first column, under its name;
    the values come second, under the name of the series, or under 0 when
    the series has none. *)
Definition series_reset_index (s : Series) : Table :=
  mkTable
    [ match s_index_name s with Some n => LStr n | None => LStr "index" end;
      match s_name s with Some n => LStr n | None => LInt 0 end ]
    (map (fun kv => [CStr (fst kv); CNum (snd kv)]) (s_items s)).

(** [t.rename(columns={old: new})]: a label that is absent is ignored. *)
Definition rename_column (old new : label) (t : Table) : Table :=
  mkTable
    (map (fun c => if label_eqb c old then new else c) (t_columns t))
    (t_rows t).

Definition label_text (l : label) : string :=
  match l with
  | LStr s => s
  | LInt z => NilZero.string_of_int (Z.to_int z)
  end.

Record Csv : Type := mkCsv {
  csv_header : list string;
  csv_rows : list (list cell)
}.

Definition to_csv (t : Table) : Csv :=
  mkCsv (map label_text (t_columns t)) (t_rows t).

(** Line 72. *)
Definition csv_yearly (df : DataFrame) : Csv :=
  to_csv (rename_column (LInt 0) (LStr "yearly_return")
            (series_reset_index (df_yearly df))).

(** Line 147: [monthly_return.reset_index().to_csv(index=False)]. *)
Definition monthly_reset_index (rows : list MonthlyRow) : Table :=
  mkTable [LStr "ticker"; LStr "first"; LStr "last"; LStr "monthly_return"]
    (map (fun r => [CStr (m_ticker r); CNum (m_first r); CNum (m_last r);
                    CNum (m_monthly_return r)]) rows).

Definition csv_month (df : DataFrame) (selected_month : Month) : Csv :=
  to_csv (monthly_reset_index (monthly_return df selected_month)).

(** Line 57 on one ticker: last close, first close, and their ratio. *)
Definition yearly_of (df : DataFrame) (g : string) : fval :=
  let cs := map Num (closes_of g df) in
  fdiv (fsub (last_valid cs) (first_valid cs)) (first_valid cs).

(** The mean of the yearly return over the tickers of a sector, each ticker
    counted once. *)
Definition sector_mean_by_ticker (df : DataFrame) (s : string) : fval :=
  mean (map (series_get (df_yearly df))
          (filter (fun t => String.eqb (sector_of t) s)
             (group_keys (col_ticker df)))).

(** The mean of the yearly return over the records of a sector, each
    ticker counted once per record. *)
Definition sector_mean_by_record (df : DataFrame) (s : string) : fval :=
  mean (map (fun r => series_get (df_yearly df) (ticker r))
          (filter (fun r => String.eqb (sector_of (ticker r)) s) df)).

Definition two_finance_tickers : DataFrame := [
  mkPrice "hdfc" (ymd 2024 1 1) 10; mkPrice "hdfc" (ymd 2024 1 2) 20;
  mkPrice "sbicard" (ymd 2024 1 1) 10; mkPrice "sbicard" (ymd 2024 1 2) 10;
  mkPrice "sbicard" (ymd 2024 1 3) 10; mkPrice "sbicard" (ymd 2024 1 4) 10
].

(** [a] may stand before [b] in a descending ranking: [b] is null, or
    [b <= a]. *)
Definition desc_nan_last (a b : fval) : Prop :=
  isna b = true \/ fleb b a = true.

(** The values of the column labelled [name] of an export. *)
Fixpoint index_of (name : string) (header : list string) : option nat :=
  match header with
  | [] => None
  | h :: r =>
      if String.eqb h name then Some 0%nat
      else option_map S (index_of name r)
  end.

Definition csv_column (name : string) (c : Csv) : option (list cell) :=
  match index_of name (csv_header c) with
  | Some i => Some (map (fun row => nth i row (CStr "")) (csv_rows c))
  | None => None
  end.

Definition january_partial : DataFrame := [
  mkPrice "p" (ymd 2024 1 30) 8; mkPrice "p" (ymd 2024 1 5) 4;
  mkPrice "p" (ymd 2024 2 9) 7; mkPrice "q" (ymd 2024 2 1) 3;
  mkPrice "q" (ymd 2024 2 20) 6; mkPrice "q" (ymd 2023 12 29) 2
].

(** The textbook sample variance of rationals. *)
Definition Qsum (qs : list Q) : Q := fold_left Qplus qs 0.

Definition Qmean (qs : list Q) : Q :=
  Qsum qs / inject_Z (Z.of_nat (List.length qs)).

Definition Qvar (qs : list Q) : Q :=
  Qsum (map (fun q => (q - Qmean qs) * (q - Qmean qs)) qs)
  / inject_Z (Z.of_nat (List.length qs - 1)).

(** Values a sum of squares can take. *)
Definition fnonneg (v : fval) : Prop :=
  match v with
  | Num q => 0 <= q
  | PInf | NaN => True
  | NInf => False
  end.

Definition single_record : DataFrame := [ mkPrice "solo" (ymd 2024 1 1) 10 ].

(** ** Correlation of the daily returns (lines 120-122)

    A frame here is a list of rows, one per date, each row holding one cell
    per ticker column. *)

Definition date_eqb (a b : Date) : bool :=
  ((year a =? year b) && (month_of_year a =? month_of_year b)
   && (day a =? day b))%Z.

Fixpoint unique_dates (l : list Date) : list Date :=
  match l with
  | [] => []
  | x :: r => x :: filter (fun y => negb (date_eqb y x)) (unique_dates r)
  end.

Record Frame : Type := mkFrame {
  f_columns : list string;
  f_rows : list (Date * list fval)
}.

(** [df.pivot_table(index="date", columns="ticker", values="close",
    aggfunc="mean")]: dates and tickers sorted; a cell is the mean of the
    closes of its date and ticker, and null when there is none. *)
Definition pivot_cell (df : DataFrame) (dt : Date) (g : string) : fval :=
  mean (map (fun r => Num (close r))
          (filter (fun r => date_eqb (date r) dt && String.eqb (ticker r) g)
             df)).

Definition pivot_table (df : DataFrame) : Frame :=
  let tickers := group_keys (col_ticker df) in
  mkFrame tickers
    (map (fun dt => (dt, map (pivot_cell df dt) tickers))
       (sort_by date_leb (unique_dates (map date df)))).

(** [.ffill()]: a null cell takes the last value above it in its column. *)
Fixpoint ffill_rows (prev : list fval) (rows : list (Date * list fval))
  : list (Date * list fval) :=
  match rows with
  | [] => []
  | (dt, r) :: rs =>
      let r' := zip_with (fun p x => if isna x then p else x) prev r in
      (dt, r') :: ffill_rows r' rs
  end.

Definition frame_ffill (f : Frame) : Frame :=
  mkFrame (f_columns f)
    (ffill_rows (repeat NaN (List.length (f_columns f))) (f_rows f)).

(** [.pct_change()] on a frame: each row over the row above, less 1; the
    first row is null.  The default fill method pads the frame first. *)
Fixpoint pct_change_rows (prev : list fval) (rows : list (Date * list fval))
  : list (Date * list fval) :=
  match rows with
  | [] => []
  | (dt, r) :: rs =>
      (dt, zip_with (fun x p => fsub (fdiv x p) (Num 1)) r prev)
      :: pct_change_rows r rs
  end.

Definition frame_pct_change (f : Frame) : Frame :=
  let padded := frame_ffill f in
  mkFrame (f_columns f)
    (pct_change_rows (repeat NaN (List.length (f_columns f)))
       (f_rows padded)).

(** [.dropna()]: the rows without a null cell. *)
Definition frame_dropna (f : Frame) : Frame :=
  mkFrame (f_columns f)
    (filter (fun row => forallb (fun v => negb (isna v)) (snd row))
       (f_rows f)).

Definition frame_column (f : Frame) (j : nat) : list fval :=
  map (fun row => nth j (snd row) NaN) (f_rows f).

(** A correlation coefficient: null, or [num / sqrt rad] with the root
    left unevaluated, or left to rounding: the script tests its rounded
    divisor against zero, and where the exact divisor is zero for returns
    that are not all zero, exact arithmetic does not tell whether the
    rounded one is; the entry is then null or a number, by rounding. *)
Inductive surd : Type :=
| SNaN
| Over (num : Q) (rad : Q)
| ByRounding.

(** The observations of a pair of columns: the rows where both cells are
    finite. *)
Fixpoint finite_pairs (xs ys : list fval) : list (Q * Q) :=
  match xs, ys with
  | x :: xs', y :: ys' =>
      match x, y with
      | Num a, Num b => (a, b) :: finite_pairs xs' ys'
      | _, _ => finite_pairs xs' ys'
      end
  | _, _ => []
  end.

Definition deviations (qs : list Q) : list Q :=
  map (fun q => q - Qmean qs) qs.

Definition dot (a b : list Q) : Q :=
  Qsum (zip_with Qmult a b).

(** All the values are zero. *)
Definition all_zero (qs : list Q) : bool :=
  forallb (fun q => Qeq_bool q 0) qs.

(** Pearson's coefficient of two columns: the sum of the products of the
    deviations over the root of the product of the sums of their squares,
    and null when that divisor is zero.  The divisor of the script is zero
    whatever the rounding when there are fewer than two observations (none
    is below [min_periods]; one has no deviation) and when the returns of
    one column are all zero (a return is zero when a price equals the price
    before it, and is then zero as a float too). *)
Definition pearson (xs ys : list fval) : surd :=
  let obs := finite_pairs xs ys in
  if (List.length obs <? 2)%nat then SNaN
  else if all_zero (map fst obs) || all_zero (map snd obs) then SNaN
  else
    let dx := deviations (map fst obs) in
    let dy := deviations (map snd obs) in
    let rad := dot dx dx * dot dy dy in
    if Qeq_bool rad 0 then ByRounding else Over (dot dx dy) rad.

(** [returns.corr()]: the entry of columns [i] and [j] is computed once,
    for the larger index against the smaller, and stored at both places. *)
Definition corr_entry (f : Frame) (i j : nat) : surd :=
  pearson (frame_column f (Nat.max i j)) (frame_column f (Nat.min i j)).

Definition frame_corr (f : Frame) : list (string * list (string * surd)) :=
  let k := List.length (f_columns f) in
  map (fun i =>
         (nth i (f_columns f) "",
          map (fun j => (nth j (f_columns f) "", corr_entry f i j))
              (seq 0 k)))
      (seq 0 k).

Definition pivot (df : DataFrame) : Frame := frame_ffill (pivot_table df).

Definition returns (df : DataFrame) : Frame :=
  frame_dropna (frame_pct_change (pivot df)).

Definition corr (df : DataFrame) : list (string * list (string * surd)) :=
  frame_corr (returns df).

Definition three_movers : DataFrame := [
  mkPrice "u" (ymd 2024 1 1) 10; mkPrice "u" (ymd 2024 1 2) 11;
  mkPrice "u" (ymd 2024 1 4) 12; mkPrice "u" (ymd 2024 1 5) 9;
  mkPrice "v" (ymd 2024 1 1) 20; mkPrice "v" (ymd 2024 1 3) 22;
  mkPrice "v" (ymd 2024 1 4) 21; mkPrice "v" (ymd 2024 1 5) 25;
  mkPrice "w" (ymd 2024 1 2) 5; mkPrice "w" (ymd 2024 1 3) 5;
  mkPrice "w" (ymd 2024 1 4) 6; mkPrice "w" (ymd 2024 1 5) 4
].

(** The real number a root or a coefficient stands for; nothing for a null
    or a coefficient left to rounding and, for a root, for an infinite
    radicand. *)
Definition root_R (r : root) : option R :=
  match r with
  | Sqrt (Num v) => Some (sqrt (Q2R v))
  | Sqrt _ => None
  end.


(** The entry of the correlation matrix in row [i] and column [j]. *)
Definition corr_at (df : DataFrame) (i j : nat) : option surd :=
  match nth_error (corr df) i with
  | Some (_, row) => option_map snd (nth_error row j)
  | None => None
  end.

(** [r1] may stand before [r2] in a descending ranking of roots, read as
    real numbers. *)
Definition root_ge (r1 r2 : root) : Prop :=
  forall a b, root_R r1 = Some a -> root_R r2 = Some b -> (b <= a)%R.

(** ** The rest of the script

    The loader, the key metrics, the gainer and loser tables, the
    cumulative-performance selection and the monthly charts. *)

(** Lines 10-21.  The store is read as its tables, each with its name and
    its rows; of a row the pipeline reads the date and the close.
    [pd.concat] refuses an empty list, so a store without tables gives no
    frame. *)
Definition Store : Type := list (string * list (Date * Q)).

Definition read_table (t : string * list (Date * Q)) : DataFrame :=
  map (fun row => mkPrice (str_lower (fst t)) (fst row) (snd row)) (snd t).

Definition load_data (store : Store) : option DataFrame :=
  match store with
  | [] => None
  | _ => Some (flat_map read_table store)
  end.

(** [a < b] on values that are not null. *)
Definition fltb (a b : fval) : bool := fleb a b && negb (fleb b a).

(** [s[mask].count()]: the entries that pass the mask and are not null. *)
Definition count_where (p : fval -> bool) (s : Series) : nat :=
  count (filter p (map snd (s_items s))).

(** [mask.mean()]: the share of the entries that pass the mask. *)
Definition share_where (p : fval -> bool) (s : Series) : fval :=
  mean (map (fun kv => Num (if p (snd kv) then 1 else 0)) (s_items s)).

(** Lines 67-69, the numbers before they are formatted. *)
Definition green_stocks (df : DataFrame) : nat :=
  count_where (fun v => fltb (Num 0) v) (df_yearly df).

Definition red_stocks (df : DataFrame) : nat :=
  count_where (fun v => fleb v (Num 0)) (df_yearly df).

Definition pct_positive (df : DataFrame) : fval :=
  fmul (share_where (fun v => fltb (Num 0) v) (df_yearly df)) (Num 100).

Definition pct_negative (df : DataFrame) : fval :=
  fmul (share_where (fun v => fleb v (Num 0)) (df_yearly df)) (Num 100).

Definition avg_price (df : DataFrame) : fval :=
  mean (map snd (s_items (latest_close df))).


(** [sort_values()], ascending: the rows with a value, smallest first, then
    the rows whose value is null. *)
Definition sort_values_asc {A : Type} (key : A -> fval) (l : list A)
  : list A :=
  sort_by (fun a b => fleb (key a) (key b))
    (filter (fun a => negb (isna (key a))) l)
  ++ filter (fun a => isna (key a)) l.

(** [tail(n)] *)
Definition tail {A : Type} (n : nat) (l : list A) : list A :=
  skipn (List.length l - n) l.

(** Lines 77-78. *)
Definition top10 (df : DataFrame) : list (string * fval) :=
  head 10 (sort_values_desc snd (s_items (df_yearly df))).

Definition bottom10 (df : DataFrame) : list (string * fval) :=
  head 10 (sort_values_asc snd (s_items (df_yearly df))).

(** Lines 83 and 86: the colour of a cell. *)
Definition cell_style (v : fval) : string :=
  if fltb (Num 0) v then "color: green" else "color: red".

(** Lines 104-105. *)
Definition top5 (df : DataFrame) : list string :=
  map fst
    (head 5
       (sort_values_desc snd
          (groupby_agg last_valid (col_ticker df)
             (col_cumulative_return df)))).

Definition isin (t : string) (l : list string) : bool :=
  existsb (String.eqb t) l.

Definition df_top5 (df : DataFrame) : DataFrame :=
  filter (fun r => isin (ticker r) (top5 df)) df.

(** Lines 141 and 144: the rows of the two monthly charts. *)
Definition monthly_gainers (df : DataFrame) (selected_month : Month)
  : list (string * fval) :=
  head 5 (map (fun r => (m_ticker r, m_monthly_return r))
            (monthly_return df selected_month)).

Definition monthly_losers (df : DataFrame) (selected_month : Month)
  : list (string * fval) :=
  tail 5 (map (fun r => (m_ticker r, m_monthly_return r))
            (monthly_return df selected_month)).

(** The last character of a string. *)
Definition last_char (s : string) : option ascii :=
  match list_ascii_of_string s with
  | [] => None
  | c :: r => Some (last r c)
  end.

Definition first_char (s : string) : option ascii :=
  match s with
  | EmptyString => None
  | String c _ => Some c
  end.

Definition is_upper (c : ascii) : bool :=
  let n := nat_of_ascii c in ((65 <=? n) && (n <=? 90))%nat.

Definition two_tables : Store := [
  (" Infosys", [(ymd 2024 1 2, 15); (ymd 2024 1 1, 14)]);
  ("EMPTY", []);
  ("wipro ", [(ymd 2024 1 1, 4)])
].

(** The percent changes of the closes [xs] that follow the close [p]. *)
Fixpoint steps (p : Q) (xs : list Q) : list Q :=
  match xs with
  | [] => []
  | x :: r => (x / p - 1) :: steps x r
  end.

Definition flat_price : DataFrame := [
  mkPrice "k" (ymd 2024 1 1) 7; mkPrice "k" (ymd 2024 1 2) 7;
  mkPrice "k" (ymd 2024 1 5) 7; mkPrice "k" (ymd 2024 1 9) 7
].

(** A rational count. *)
Definition Qnat (n : nat) : Q := inject_Z (Z.of_nat n).


(** [a] may stand before [b] in an ascending ranking: [b] is null, or
    [a <= b]. *)
Definition asc_nan_last (a b : fval) : Prop :=
  isna b = true \/ fleb a b = true.

Definition twelve_tickers : DataFrame :=
  flat_map (fun k =>
              [mkPrice (String (ascii_of_nat (97 + k)) EmptyString)
                 (ymd 2024 1 1) 10;
               mkPrice (String (ascii_of_nat (97 + k)) EmptyString)
                 (ymd 2024 1 2) (inject_Z (Z.of_nat (10 + k)))])
           (seq 0 12).

Definition one_day : DataFrame := [
  mkPrice "m" (ymd 2024 1 1) 3; mkPrice "n" (ymd 2024 1 1) 8
].

Definition late_listing : DataFrame := [
  mkPrice "e" (ymd 2024 1 1) 10; mkPrice "e" (ymd 2024 1 2) 11;
  mkPrice "e" (ymd 2024 1 3) 12; mkPrice "e" (ymd 2024 1 4) 13;
  mkPrice "f" (ymd 2024 1 3) 20; mkPrice "f" (ymd 2024 1 4) 21
].

(** The records of ticker [g] dated [dt]. *)
Definition records_on (df : DataFrame) (dt : Date) (g : string)
  : DataFrame :=
  filter (fun r => date_eqb (date r) dt && String.eqb (ticker r) g) df.

Definition double_entry : DataFrame := [
  mkPrice "h" (ymd 2024 1 1) 10; mkPrice "h" (ymd 2024 1 1) 14;
  mkPrice "i" (ymd 2024 1 2) 3; mkPrice "h" (ymd 2024 1 3) 16
].

Definition geometric_prices : DataFrame := [
  mkPrice "u" (ymd 2024 1 1) 10; mkPrice "u" (ymd 2024 1 2) 11;
  mkPrice "u" (ymd 2024 1 3) (121 # 10); mkPrice "u" (ymd 2024 1 4) (1331 # 100);
  mkPrice "v" (ymd 2024 1 1) 20; mkPrice "v" (ymd 2024 1 2) 21;
  mkPrice "v" (ymd 2024 1 3) 20; mkPrice "v" (ymd 2024 1 4) 23
].

Definition single_zero_close : DataFrame := [ mkPrice "nil" (ymd 2024 1 1) 0 ].

(** A name of ASCII characters only. *)
Definition ascii_only (s : string) : Prop :=
  Forall (fun c => (nat_of_ascii c < 128)%nat) (list_ascii_of_string s).

Definition twelve_movers : DataFrame :=
  flat_map (fun k =>
              let name := String (ascii_of_nat (97 + k)) EmptyString in
              [mkPrice name (ymd 2024 1 1) 10;
               mkPrice name (ymd 2024 1 2) (inject_Z (Z.of_nat (10 + k)));
               mkPrice name (ymd 2024 1 3) 10])
           (seq 0 12).
(** * Proofs *)

(** ** Values *)

Lemma feq_refl (a : fval) : a =f= a.
Proof. destruct a; simpl; auto. reflexivity. Qed.

Lemma feq_sym (a b : fval) : a =f= b -> b =f= a.
Proof. destruct a, b; simpl; auto. intros H; symmetry; exact H. Qed.

Lemma feq_trans (a b c : fval) : a =f= b -> b =f= c -> a =f= c.
Proof.
  destruct a, b, c; simpl; auto; try contradiction.
  intros H1 H2; rewrite H1; exact H2.
Qed.

#[global] Instance feq_Equivalence : Equivalence feq.
Proof.
  constructor;
    [exact feq_refl | exact feq_sym | exact feq_trans].
Qed.

Lemma feqb_spec (a b : fval) : feqb a b = true <-> a =f= b.
Proof.
  destruct a, b; simpl; try (split; [discriminate | contradiction]);
    try (split; auto).
  - apply Qeq_bool_eq.
  - apply Qeq_eq_bool.
Qed.

Lemma inf_of_sign_comp (x y : Q) : x == y -> inf_of_sign x = inf_of_sign y.
Proof. intros H. unfold inf_of_sign. rewrite H. reflexivity. Qed.

Lemma Qeq_bool_comp (x y z : Q) : x == y -> Qeq_bool x z = Qeq_bool y z.
Proof.
  intros H. destruct (Qeq_bool y z) eqn:E.
  - apply Qeq_eq_bool. rewrite H. apply Qeq_bool_eq. exact E.
  - destruct (Qeq_bool x z) eqn:E'; auto.
    apply Qeq_bool_eq in E'. rewrite H in E'. apply Qeq_eq_bool in E'.
    congruence.
Qed.

Lemma Qle_bool_comp_r (x y z : Q) : x == y -> Qle_bool z x = Qle_bool z y.
Proof.
  intros H. destruct (Qle_bool z y) eqn:E.
  - apply Qle_bool_iff. rewrite H. apply Qle_bool_iff. exact E.
  - destruct (Qle_bool z x) eqn:E'; auto.
    apply Qle_bool_iff in E'. rewrite H in E'. apply Qle_bool_iff in E'.
    congruence.
Qed.

Lemma Qle_bool_comp_l (x y z : Q) : x == y -> Qle_bool x z = Qle_bool y z.
Proof.
  intros H. destruct (Qle_bool y z) eqn:E.
  - apply Qle_bool_iff. rewrite H. apply Qle_bool_iff. exact E.
  - destruct (Qle_bool x z) eqn:E'; auto.
    apply Qle_bool_iff in E'. rewrite H in E'. apply Qle_bool_iff in E'.
    congruence.
Qed.

#[global] Instance fadd_Proper : Proper (feq ==> feq ==> feq) fadd.
Proof.
  intros a a' Ha b b' Hb.
  destruct a, a'; simpl in Ha; try contradiction;
    destruct b, b'; simpl in Hb; try contradiction; simpl; auto.
  rewrite Ha, Hb. reflexivity.
Qed.

#[global] Instance fsub_Proper : Proper (feq ==> feq ==> feq) fsub.
Proof.
  intros a a' Ha b b' Hb.
  destruct a, a'; simpl in Ha; try contradiction;
    destruct b, b'; simpl in Hb; try contradiction; simpl; auto.
  rewrite Ha, Hb. reflexivity.
Qed.

#[global] Instance fmul_Proper : Proper (feq ==> feq ==> feq) fmul.
Proof.
  intros a a' Ha b b' Hb.
  destruct a, a'; simpl in Ha; try contradiction;
    destruct b, b'; simpl in Hb; try contradiction; simpl; auto;
    try (rewrite Ha, Hb; reflexivity);
    try (rewrite (inf_of_sign_comp _ _ Ha); reflexivity);
    try (rewrite (inf_of_sign_comp _ _ Hb); reflexivity).
  - rewrite (inf_of_sign_comp (- q) (- q0)); [reflexivity | rewrite Ha; reflexivity].
  - rewrite (inf_of_sign_comp (- q) (- q0)); [reflexivity | rewrite Hb; reflexivity].
Qed.

#[global] Instance fdiv_Proper : Proper (feq ==> feq ==> feq) fdiv.
Proof.
  intros a a' Ha b b' Hb.
  destruct a, a'; simpl in Ha; try contradiction;
    destruct b, b'; simpl in Hb; try contradiction; simpl; auto;
    try reflexivity.
  - rewrite (Qeq_bool_comp _ _ 0 Hb).
    destruct (Qeq_bool q2 0).
    + rewrite (inf_of_sign_comp _ _ Ha). reflexivity.
    + simpl. rewrite Ha, Hb. reflexivity.
  - rewrite (Qle_bool_comp_r _ _ 0 Hb). reflexivity.
  - rewrite (Qle_bool_comp_r _ _ 0 Hb). reflexivity.
Qed.

(** ** Sorting *)

Section SortFacts.
Context {A : Type} (leb : A -> A -> bool) (P : A -> Prop).
Hypothesis leb_total :
  forall x y, P x -> P y -> leb x y = true \/ leb y x = true.
Hypothesis leb_trans :
  forall x y z, leb x y = true -> leb y z = true -> leb x z = true.

Lemma insert_by_perm (x : A) (l : list A) :
  Permutation (x :: l) (insert_by leb x l).
Proof.
  induction l as [|y r IH]; simpl; auto.
  destruct (leb x y); auto.
  rewrite perm_swap. constructor. exact IH.
Qed.

Lemma sort_by_perm (l : list A) : Permutation l (sort_by leb l).
Proof.
  induction l as [|x r IH]; simpl; auto.
  rewrite <- insert_by_perm. constructor. exact IH.
Qed.

Lemma insert_by_sorted (x : A) (l : list A) :
  P x -> Forall P l ->
  StronglySorted (fun a b => leb a b = true) l ->
  StronglySorted (fun a b => leb a b = true) (insert_by leb x l).
Proof.
  intros Px Pl. induction 1 as [|y r Hs IH Hy]; simpl.
  - repeat constructor.
  - inversion Pl as [|? ? Py Pr]; subst.
    destruct (leb x y) eqn:E.
    + constructor; [constructor; assumption|].
      constructor; [exact E|].
      rewrite Forall_forall in Hy |- *. intros z Hz. eauto.
    + constructor; [apply IH; exact Pr|].
      rewrite Forall_forall in Hy |- *. intros z Hz.
      apply (Permutation_in _ (Permutation_sym (insert_by_perm x r))) in Hz.
      destruct Hz as [<-|Hz]; auto.
      destruct (leb_total x y Px Py); congruence.
Qed.

Lemma sort_by_sorted (l : list A) :
  Forall P l ->
  StronglySorted (fun a b => leb a b = true) (sort_by leb l).
Proof.
  induction 1 as [|x r Px Pr IH]; simpl; [constructor|].
  apply insert_by_sorted; auto.
  rewrite Forall_forall in Pr |- *. intros y Hy. apply Pr.
  apply (Permutation_in _ (Permutation_sym (sort_by_perm r))). exact Hy.
Qed.
End SortFacts.

Lemma StronglySorted_filter {A : Type} (R : A -> A -> Prop) (p : A -> bool)
    (l : list A) :
  StronglySorted R l -> StronglySorted R (filter p l).
Proof.
  induction 1 as [|x r Hs IH Hx]; simpl; [constructor|].
  destruct (p x); auto. constructor; auto.
  rewrite Forall_forall in *. intros y Hy. apply filter_In in Hy. apply Hx, Hy.
Qed.

Lemma date_leb_total (a b : Date) : date_leb a b = true \/ date_leb b a = true.
Proof.
  unfold date_leb.
  repeat match goal with
         | |- context [(?x <? ?y)%Z] => destruct (Z.ltb_spec x y)
         | |- context [(?x <=? ?y)%Z] => destruct (Z.leb_spec x y)
         end; auto; lia.
Qed.

Lemma date_leb_trans (a b c : Date) :
  date_leb a b = true -> date_leb b c = true -> date_leb a c = true.
Proof.
  unfold date_leb.
  repeat match goal with
         | |- context [(?x <? ?y)%Z] => destruct (Z.ltb_spec x y)
         | |- context [(?x <=? ?y)%Z] => destruct (Z.leb_spec x y)
         end; auto; try discriminate; try lia.
Qed.

(** Line 48 leaves every ticker's records in date order. *)
Lemma records_of_chronological (raw : DataFrame) (g : string) :
  StronglySorted (fun a b => date_leb (date a) (date b) = true)
    (records_of g (preprocess raw)).
Proof.
  apply StronglySorted_filter.
  apply (sort_by_sorted by_date (fun _ => True)).
  - intros x y _ _. apply date_leb_total.
  - intros x y z. apply date_leb_trans.
  - apply Forall_forall. auto.
Qed.

Lemma records_of_perm (raw : DataFrame) (g : string) :
  Permutation (records_of g (map normalise raw)) (records_of g (preprocess raw)).
Proof.
  unfold records_of, preprocess.
  set (l := map normalise raw). clearbody l.
  induction l as [|x r IH]; simpl; auto.
  transitivity (filter (fun r0 => String.eqb (ticker r0) g) (x :: sort_by by_date r)).
  - simpl. destruct (String.eqb (ticker x) g); auto.
  - clear IH. generalize (sort_by by_date r). intros l.
    induction l as [|y l IH]; simpl; auto.
    destruct (by_date x y); simpl; auto.
    destruct (String.eqb (ticker x) g) eqn:Ex, (String.eqb (ticker y) g) eqn:Ey;
      simpl in IH; rewrite ?Ex in IH; auto.
    rewrite perm_swap. constructor. exact IH.
Qed.

(** ** Group-by *)


Lemma group_values_length {A : Type} (keys : list string) (vals : list A)
    (g : string) :
  List.length keys = List.length vals ->
  List.length (group_values keys vals g) = group_size keys g.
Proof.
  unfold group_values, group_size. rewrite length_map.
  revert vals. induction keys as [|k ks IH]; intros [|v vs] H; simpl in *;
    try discriminate; auto.
  destruct (String.eqb k g); simpl; auto.
Qed.

Lemma group_values_map {R A : Type} (key : R -> string) (f : R -> A)
    (rows : list R) (g : string) :
  group_values (map key rows) (map f rows) g
  = map f (filter (fun r => String.eqb (key r) g) rows).
Proof.
  unfold group_values.
  induction rows as [|r rs IH]; simpl; auto.
  destruct (String.eqb (key r) g); simpl; rewrite IH; reflexivity.
Qed.

Lemma scatter_length {B : Type} (dflt : B) (keys : list string)
    (res : string -> list B) :
  List.length (scatter dflt keys res) = List.length keys.
Proof.
  revert res. induction keys as [|k ks IH]; intros res; simpl; auto.
Qed.

(** Scattering and regrouping gives each group its own results back. *)
Lemma scatter_group {B : Type} (dflt : B) (keys : list string)
    (res : string -> list B) (g : string) :
  List.length (res g) = group_size keys g ->
  group_values keys (scatter dflt keys res) g = res g.
Proof.
  unfold group_values, group_size.
  revert res. induction keys as [|k ks IH]; intros res H; simpl in *.
  - destruct (res g); [reflexivity | discriminate].
  - destruct (String.eqb k g) eqn:E; simpl.
    + apply String.eqb_eq in E. subst k.
      rewrite IH.
      * rewrite String.eqb_refl. destruct (res g); [discriminate | reflexivity].
      * rewrite String.eqb_refl. destruct (res g); simpl in *; [discriminate | lia].
    + rewrite IH.
      * rewrite String.eqb_sym, E. reflexivity.
      * rewrite String.eqb_sym, E. exact H.
Qed.

Lemma groupby_transform_group {A B : Type} (dflt : B)
    (f : list A -> list B) (keys : list string) (vals : list A) (g : string) :
  (forall xs, List.length (f xs) = List.length xs) ->
  List.length keys = List.length vals ->
  group_values keys (groupby_transform dflt f keys vals) g
  = f (group_values keys vals g).
Proof.
  intros Hf Hlen. unfold groupby_transform.
  apply (scatter_group dflt keys (fun g => f (group_values keys vals g))).
  rewrite Hf. apply group_values_length. exact Hlen.
Qed.

Lemma zip_with_length {A B C : Type} (f : A -> B -> C) (l : list A)
    (m : list B) :
  List.length l = List.length m ->
  List.length (zip_with f l m) = List.length l.
Proof.
  revert m. induction l as [|a l IH]; intros [|b m] H; simpl in *;
    try discriminate; auto.
Qed.

Lemma shift1_length (xs : list fval) :
  List.length (shift1 xs) = List.length xs.
Proof.
  destruct xs as [|x r]; auto.
  unfold shift1. cbn [List.length].
  rewrite removelast_firstn_len, length_firstn. simpl. lia.
Qed.

Lemma pct_change_length (xs : list fval) :
  List.length (pct_change xs) = List.length xs.
Proof.
  unfold pct_change. apply zip_with_length. symmetry. apply shift1_length.
Qed.

Lemma cumprod_from_length (acc : fval) (xs : list fval) :
  List.length (cumprod_from acc xs) = List.length xs.
Proof.
  revert acc. induction xs as [|x r IH]; intros acc; simpl; auto.
  destruct (isna x); simpl; rewrite IH; reflexivity.
Qed.

Lemma cumprod_length (xs : list fval) :
  List.length (cumprod xs) = List.length xs.
Proof.
  induction xs as [|x r IH]; simpl; auto.
  destruct (isna x); simpl; [rewrite IH | rewrite cumprod_from_length];
    reflexivity.
Qed.

Lemma compound_length (xs : list fval) :
  List.length (compound xs) = List.length xs.
Proof.
  unfold compound, fillna. rewrite cumprod_length, !length_map. reflexivity.
Qed.

Lemma col_daily_return_length (df : DataFrame) :
  List.length (col_daily_return df) = List.length df.
Proof.
  unfold col_daily_return, groupby_transform, col_ticker.
  rewrite scatter_length, length_map. reflexivity.
Qed.

(** The daily returns of a ticker are the percent changes of its closes. *)
Lemma daily_return_of_group (df : DataFrame) (g : string) :
  column_of g df (col_daily_return df)
  = pct_change (map Num (closes_of g df)).
Proof.
  unfold column_of, col_daily_return.
  rewrite groupby_transform_group.
  - unfold col_ticker, col_close, closes_of, records_of.
    rewrite (group_values_map ticker (fun r => Num (close r))).
    rewrite map_map. reflexivity.
  - apply pct_change_length.
  - unfold col_ticker, col_close. rewrite !length_map. reflexivity.
Qed.

(** The cumulative returns of a ticker compound its own daily returns. *)
Lemma cumulative_return_of_group (df : DataFrame) (g : string) :
  column_of g df (col_cumulative_return df)
  = compound (column_of g df (col_daily_return df)).
Proof.
  unfold column_of, col_cumulative_return.
  rewrite groupby_transform_group; auto.
  - apply compound_length.
  - rewrite col_daily_return_length. unfold col_ticker.
    rewrite length_map. reflexivity.
Qed.

(** ** Percent change *)

Lemma shift1_cons (x : fval) (xs : list fval) :
  shift1 (xs ++ [x]) = NaN :: xs.
Proof.
  unfold shift1. destruct (xs ++ [x]) eqn:E.
  - destruct xs; discriminate.
  - rewrite <- E, removelast_last. reflexivity.
Qed.

Lemma zip_with_nth_error {A B C : Type} (f : A -> B -> C) (l : list A)
    (m : list B) (n : nat) (a : A) (b : B) :
  nth_error l n = Some a -> nth_error m n = Some b ->
  nth_error (zip_with f l m) n = Some (f a b).
Proof.
  revert l m. induction n as [|n IH]; intros [|x l] [|y m] Ha Hb;
    simpl in *; try discriminate.
  - congruence.
  - apply IH; assumption.
Qed.

Lemma shift1_nth_error (xs : list fval) (n : nat) (p : fval) :
  nth_error xs n = Some p ->
  nth_error xs (S n) <> None ->
  nth_error (shift1 xs) (S n) = Some p.
Proof.
  intros Hp Hn.
  destruct (exists_last (l := xs)) as [ys [y ->]].
  { destruct xs; [destruct n; discriminate | discriminate]. }
  rewrite shift1_cons. simpl.
  assert (S n < List.length (ys ++ [y]))%nat as Hlt
      by (apply nth_error_Some; exact Hn).
  rewrite length_app in Hlt. simpl in Hlt.
  rewrite nth_error_app1 in Hp by lia. exact Hp.
Qed.

Lemma pct_change_first (x : fval) (xs : list fval) :
  nth_error (pct_change (x :: xs)) 0 = Some NaN.
Proof.
  unfold pct_change, shift1. simpl. destruct x; reflexivity.
Qed.

Lemma pct_change_step (xs : list fval) (n : nat) (x p : fval) :
  nth_error xs n = Some p -> nth_error xs (S n) = Some x ->
  nth_error (pct_change xs) (S n) = Some (fsub (fdiv x p) (Num 1)).
Proof.
  intros Hp Hx. unfold pct_change.
  apply (zip_with_nth_error (fun a b => fsub (fdiv a b) (Num 1)));
    [exact Hx|].
  apply shift1_nth_error; [exact Hp | congruence].
Qed.

(** On a nonzero previous close the library's [x / p - 1] is the
    textbook [(x - p) / p]. *)
Lemma pct_formula (x p : Q) :
  ~ p == 0 ->
  fsub (fdiv (Num x) (Num p)) (Num 1) =f= Num ((x - p) / p).
Proof.
  intros Hp. simpl.
  destruct (Qeq_bool p 0) eqn:E.
  - apply Qeq_bool_eq in E. contradiction.
  - simpl. field. exact Hp.
Qed.

(** ** Compounding *)


Lemma growth_factors_notna (dr : list fval) :
  Forall (fun x => isna x = false) (growth_factors dr).
Proof.
  unfold growth_factors. apply Forall_forall. intros x Hx.
  apply in_map_iff in Hx. destruct Hx as [y [<- _]].
  destruct y; reflexivity.
Qed.

Lemma compound_growth_factors (dr : list fval) :
  compound dr = cumprod (growth_factors dr).
Proof.
  unfold compound, growth_factors, fillna. rewrite map_map. reflexivity.
Qed.

Lemma fmul_1_l (x : fval) : fmul (Num 1) x =f= x.
Proof. destruct x; simpl; auto. ring. Qed.

Lemma fold_left_fmul_feq (xs : list fval) (a b : fval) :
  a =f= b -> fold_left fmul xs a =f= fold_left fmul xs b.
Proof.
  revert a b. induction xs as [|x r IH]; intros a b H; simpl; auto.
  apply IH. rewrite H. reflexivity.
Qed.

Lemma cumprod_from_nth (xs : list fval) (acc : fval) (t : nat) (v : fval) :
  Forall (fun x => isna x = false) xs ->
  nth_error (cumprod_from acc xs) t = Some v ->
  v = fold_left fmul (firstn (S t) xs) acc.
Proof.
  intros Hna. revert acc t.
  induction Hna as [|x r Hx Hr IH]; intros acc t H.
  - destruct t; discriminate.
  - cbn [cumprod_from] in H. rewrite Hx in H.
    destruct t as [|t]; simpl in *.
    + congruence.
    + apply IH in H. exact H.
Qed.

Lemma cumprod_nth (xs : list fval) (t : nat) (v : fval) :
  Forall (fun x => isna x = false) xs ->
  nth_error (cumprod xs) t = Some v ->
  v =f= fprod (firstn (S t) xs).
Proof.
  intros Hna H. unfold fprod.
  destruct Hna as [|x r Hx Hr]; [destruct t; discriminate|].
  cbn [cumprod] in H. rewrite Hx in H.
  destruct t as [|t].
  - simpl in *. injection H as <-. symmetry. apply fmul_1_l.
  - cbn [nth_error] in H. apply cumprod_from_nth in H; [|exact Hr].
    subst v. cbn [firstn fold_left].
    apply fold_left_fmul_feq. symmetry. apply fmul_1_l.
Qed.


(** C5.  In the date-ascending sequence of the records of a ticker, the
    first record has a null daily return, and every later record whose
    predecessor has a nonzero close has the daily return
    (close - previous close) / previous close, whatever the dates of the
    two records are. *)
Theorem daily_return_spec (raw : DataFrame) (g : string) :
  let df := preprocess raw in
  let rs := records_of g df in
  let dr := column_of g df (col_daily_return df) in
  StronglySorted (fun a b => date_leb (date a) (date b) = true) rs /\
  List.length dr = List.length rs /\
  (forall r, nth_error rs 0 = Some r -> nth_error dr 0 = Some NaN) /\
  (forall t prev cur,
      nth_error rs t = Some prev -> nth_error rs (S t) = Some cur ->
      ~ close prev == 0 ->
      exists v, nth_error dr (S t) = Some v /\
                v =f= Num ((close cur - close prev) / close prev)).
Proof.
  intros df rs dr.
  assert (Hdr : dr = pct_change (map Num (map close rs)))
    by apply daily_return_of_group.
  split; [apply records_of_chronological|].
  split; [rewrite Hdr, pct_change_length, !length_map; reflexivity|].
  split.
  - intros r Hr. rewrite Hdr.
    destruct rs as [|r0 rs']; [discriminate|]. apply pct_change_first.
  - intros t prev cur Hp Hc Hnz.
    exists (fsub (fdiv (Num (close cur)) (Num (close prev))) (Num 1)).
    split; [|apply pct_formula; exact Hnz].
    rewrite Hdr. apply pct_change_step with (n := t).
    + rewrite map_map. apply map_nth_error with (f := fun r => Num (close r)).
      exact Hp.
    + rewrite map_map. apply map_nth_error with (f := fun r => Num (close r)).
      exact Hc.
Qed.

Lemma daily_return_spec_witness :
  exists v,
    nth_error (column_of "x" (preprocess gapped)
                 (col_daily_return (preprocess gapped))) 2 = Some v /\
    v =f= Num ((6 - 5) / 5).
Proof.
  apply (proj2 (proj2 (proj2 (daily_return_spec gapped "x"))) 1%nat
           (mkPrice "x" (ymd 2024 1 2) 5) (mkPrice "x" (ymd 2024 3 15) 6)).
  - reflexivity.
  - reflexivity.
  - discriminate.
Defined.

(** C1 (amended).  On the records of a ticker, in date order, the
    cumulative return of each record is the running product of
    (1 + daily return) up to that record, a null daily return counting as
    0; no 1 is subtracted.  For the closes 10, 11, 9.9 the last cumulative
    return is 1.10 * 0.90 = 0.99. *)
Theorem cumulative_return_running_product (raw : DataFrame) (g : string) :
  let df := preprocess raw in
  let dr := column_of g df (col_daily_return df) in
  let cr := column_of g df (col_cumulative_return df) in
  List.length cr = List.length dr /\
  (forall t v, nth_error cr t = Some v ->
               v =f= fprod (firstn (S t) (growth_factors dr))) /\
  last (column_of "a" (preprocess scenario_A_B)
          (col_cumulative_return (preprocess scenario_A_B))) NaN
  =f= Num (99 # 100).
Proof.
  intros df dr cr.
  assert (Hcr : cr = compound dr) by apply cumulative_return_of_group.
  split; [rewrite Hcr; apply compound_length|].
  split; [|vm_compute; reflexivity].
  intros t v H. rewrite Hcr, compound_growth_factors in H.
  apply cumprod_nth; [apply growth_factors_notna | exact H].
Qed.

Lemma cumulative_return_running_product_witness :
  Num (1089 # 1100)
  =f= fprod (firstn 3 (growth_factors
       (column_of "a" (preprocess scenario_A_B)
          (col_daily_return (preprocess scenario_A_B))))).
Proof.
  apply (proj1 (proj2 (cumulative_return_running_product scenario_A_B "a"))
           2%nat).
  reflexivity.
Defined.

(** C1 as stated fails: on the closes 10, 11, 9.9 the script stores 0.99 on
    the last record, not the running product minus 1, which is -0.01. *)
Lemma cumulative_return_minus_one_counterexample :
  let df := preprocess scenario_A_B in
  let dr := column_of "a" df (col_daily_return df) in
  let cr := column_of "a" df (col_cumulative_return df) in
  closes_of "a" df = [10; 11; 99 # 10] /\
  nth_error cr 2 = Some (Num (1089 # 1100)) /\
  fsub (fprod (firstn 3 (growth_factors dr))) (Num 1) =f= Num (- (1 # 100)) /\
  ~ Num (1089 # 1100) =f= fsub (fprod (firstn 3 (growth_factors dr))) (Num 1).
Proof.
  cbv zeta. repeat split; try reflexivity.
  vm_compute. discriminate.
Qed.


(** ** Group keys and aggregates *)

Lemma dedup_In (l : list string) (x : string) : In x (dedup l) <-> In x l.
Proof.
  induction l as [|y r IH]; simpl; [tauto|].
  rewrite filter_In, IH, negb_true_iff, String.eqb_neq.
  destruct (string_dec y x) as [->|Hne]; [tauto|].
  split; [tauto|]. intros [H|H]; [tauto|]. right. split; auto.
Qed.

Lemma dedup_NoDup (l : list string) : NoDup (dedup l).
Proof.
  induction l as [|y r IH]; simpl; constructor.
  - rewrite filter_In, String.eqb_refl. intros [_ H]. discriminate.
  - apply NoDup_filter. exact IH.
Qed.

Lemma group_keys_In (keys : list string) (g : string) :
  In g (group_keys keys) <-> In g keys.
Proof.
  unfold group_keys. rewrite <- (dedup_In keys). split.
  - apply Permutation_in. symmetry. apply sort_by_perm.
  - apply Permutation_in. apply sort_by_perm.
Qed.

Lemma group_keys_NoDup (keys : list string) : NoDup (group_keys keys).
Proof.
  unfold group_keys.
  apply (Permutation_NoDup (sort_by_perm String.leb (dedup keys))).
  apply dedup_NoDup.
Qed.

Lemma dict_get_map {V : Type} (F : string -> V) (ks : list string)
    (g : string) :
  In g ks -> dict_get (map (fun k => (k, F k)) ks) g = Some (F g).
Proof.
  induction ks as [|k r IH]; simpl; [contradiction|].
  intros H. destruct (String.eqb k g) eqn:E.
  - apply String.eqb_eq in E. subst. reflexivity.
  - apply IH. destruct H as [->|H]; auto.
    rewrite String.eqb_refl in E. discriminate.
Qed.

Lemma groupby_agg_keys {A B : Type} (f : list A -> B) (keys : list string)
    (vals : list A) :
  map fst (groupby_agg f keys vals) = group_keys keys.
Proof.
  unfold groupby_agg. rewrite map_map. simpl. apply map_id.
Qed.

Lemma dropna_map_Num (qs : list Q) : dropna (map Num qs) = map Num qs.
Proof.
  unfold dropna. induction qs as [|q r IH]; simpl; congruence.
Qed.

Lemma first_valid_closes (c : Q) (cs : list Q) :
  first_valid (map Num (c :: cs)) = Num c.
Proof. unfold first_valid. rewrite dropna_map_Num. reflexivity. Qed.

Lemma last_map_default {A B : Type} (f : A -> B) (l : list A) (a : A)
    (b : B) :
  l <> [] -> last (map f l) b = f (last l a).
Proof.
  induction l as [|x r IH]; [congruence|]. intros _.
  destruct r as [|y r]; [reflexivity|].
  change (last (map f (x :: y :: r)) b) with (last (map f (y :: r)) b).
  change (last (x :: y :: r) a) with (last (y :: r) a).
  apply IH. discriminate.
Qed.

Lemma last_valid_closes (c : Q) (cs : list Q) :
  last_valid (map Num (c :: cs)) = Num (last (c :: cs) c).
Proof.
  unfold last_valid. rewrite dropna_map_Num.
  apply last_map_default. discriminate.
Qed.

(** ** Yearly return *)

Lemma close_column_of_group (df : DataFrame) (g : string) :
  group_values (col_ticker df) (col_close df) g = map Num (closes_of g df).
Proof.
  unfold col_ticker, col_close, closes_of, records_of.
  rewrite (group_values_map ticker (fun r => Num (close r))), map_map.
  reflexivity.
Qed.

Lemma df_yearly_items (df : DataFrame) :
  s_items (df_yearly df)
  = map (fun g => (g, yearly_of df g)) (group_keys (col_ticker df)).
Proof.
  unfold df_yearly, series_binop, latest_close, first_close, groupby_agg.
  cbn [s_items]. rewrite !map_map. cbn [fst snd].
  apply map_ext_in. intros g Hg.
  unfold series_get. cbn [s_items].
  rewrite (dict_get_map
             (fun g => first_valid (group_values (col_ticker df) (col_close df) g)))
    by exact Hg.
  unfold yearly_of. rewrite close_column_of_group. reflexivity.
Qed.

Lemma df_yearly_get (df : DataFrame) (g : string) :
  In g (col_ticker df) -> series_get (df_yearly df) g = yearly_of df g.
Proof.
  intros H. unfold series_get. rewrite df_yearly_items.
  rewrite (dict_get_map (yearly_of df)); [reflexivity|].
  apply group_keys_In. exact H.
Qed.

Lemma records_of_In_ticker (df : DataFrame) (g : string) (r : PriceRecord) :
  In r (records_of g df) -> In g (col_ticker df).
Proof.
  unfold records_of, col_ticker. intros H. apply filter_In in H.
  destruct H as [H E]. apply String.eqb_eq in E. subst g.
  apply in_map. exact H.
Qed.


(** ** Ranking *)

Lemma filter_partition_perm {A : Type} (p : A -> bool) (l : list A) :
  Permutation l (filter (fun a => negb (p a)) l ++ filter p l).
Proof.
  induction l as [|x r IH]; simpl; auto.
  destruct (p x); simpl.
  - apply Permutation_cons_app. exact IH.
  - constructor. exact IH.
Qed.

Lemma sort_values_desc_perm {A : Type} (key : A -> fval) (l : list A) :
  Permutation l (sort_values_desc key l).
Proof.
  unfold sort_values_desc.
  rewrite <- sort_by_perm.
  apply (filter_partition_perm (fun a => isna (key a))).
Qed.

Lemma sort_values_desc_In {A : Type} (key : A -> fval) (l : list A) (x : A) :
  In x (sort_values_desc key l) <-> In x l.
Proof.
  split; apply Permutation_in;
    [symmetry|]; apply sort_values_desc_perm.
Qed.

(** ** Sector performance *)

Lemma sector_group (df : DataFrame) (s : string) :
  mean (group_values (col_sector df) (col_yearly_return df) s)
  = sector_mean_by_record df s.
Proof.
  unfold col_sector, col_yearly_return, col_ticker, sector_mean_by_record.
  rewrite map_map.
  rewrite (group_values_map (fun r => sector_of (ticker r))
             (fun r => series_get (df_yearly df) (ticker r))).
  reflexivity.
Qed.

(** C2 (amended).  For every sector that occurs in the data, "Unknown"
    included, the sector table has exactly one value, and it is the mean of
    the yearly return over the records of the sector: a ticker counts once
    for each of its price records. *)
Theorem sector_perf_spec (raw : DataFrame) (s : string) :
  let df := preprocess raw in
  In s (col_sector df) ->
  In (s, sector_mean_by_record df s) (sector_perf df) /\
  (forall v, In (s, v) (sector_perf df) -> v = sector_mean_by_record df s) /\
  NoDup (map fst (sector_perf df)).
Proof.
  intros df Hs. unfold sector_perf.
  assert (Hitems :
    forall v, In (s, v) (groupby_agg mean (col_sector df) (col_yearly_return df))
              <-> v = sector_mean_by_record df s).
  { intros v. unfold groupby_agg. rewrite in_map_iff. split.
    - intros [g [E _]]. injection E as -> <-. apply sector_group.
    - intros ->. exists s. rewrite sector_group. split; [reflexivity|].
      apply group_keys_In. exact Hs. }
  split; [|split].
  - apply sort_values_desc_In. apply Hitems. reflexivity.
  - intros v Hv. apply sort_values_desc_In in Hv. apply Hitems. exact Hv.
  - apply (Permutation_NoDup
             (Permutation_map fst (sort_values_desc_perm snd _))).
    rewrite groupby_agg_keys. apply group_keys_NoDup.
Qed.

Lemma sector_perf_spec_witness :
  In ("Unknown",
      sector_mean_by_record (preprocess scenario_A_B) "Unknown")
     (sector_perf (preprocess scenario_A_B)).
Proof.
  apply (sector_perf_spec scenario_A_B "Unknown").
  vm_compute. auto.
Defined.

(** C2 as stated fails: with two tickers of one sector, one with two records
    and a yearly return of 1 and one with four records and a yearly return
    of 0, the script reports 2/6 and not the mean over tickers, 1/2. *)
Lemma sector_perf_unweighted_counterexample :
  let df := preprocess two_finance_tickers in
  exists v,
    sector_perf df = [("Finance", v)] /\
    v =f= Num (1 # 3) /\
    sector_mean_by_ticker df "Finance" =f= Num (1 # 2) /\
    ~ v =f= sector_mean_by_ticker df "Finance".
Proof.
  cbv zeta. eexists. split; [vm_compute; reflexivity|].
  split; [vm_compute; reflexivity|].
  split; [vm_compute; reflexivity|].
  vm_compute. discriminate.
Qed.

Lemma fleb_total (x y : fval) :
  isna x = false -> isna y = false -> fleb x y = true \/ fleb y x = true.
Proof.
  destruct x, y; simpl; try discriminate; auto.
  intros _ _. rewrite !Qle_bool_iff.
  destruct (Qlt_le_dec q q0) as [H|H]; [left; apply Qlt_le_weak|right];
    exact H.
Qed.

Lemma fleb_trans (x y z : fval) :
  fleb x y = true -> fleb y z = true -> fleb x z = true.
Proof.
  destruct x, y, z; simpl; try discriminate; auto.
  rewrite !Qle_bool_iff. apply Qle_trans.
Qed.

Lemma StronglySorted_app {A : Type} (R : A -> A -> Prop) (l m : list A) :
  StronglySorted R l -> StronglySorted R m ->
  (forall a b, In a l -> In b m -> R a b) ->
  StronglySorted R (l ++ m).
Proof.
  induction 1 as [|x r Hs IH Hx]; intros Hm Hlm; simpl; auto.
  constructor.
  - apply IH; auto. intros a b Ha Hb. apply Hlm; simpl; auto.
  - apply Forall_app. split; auto.
    apply Forall_forall. intros b Hb. apply Hlm; simpl; auto.
Qed.

Lemma StronglySorted_weaken {A : Type} (R S : A -> A -> Prop) (l : list A) :
  (forall a b, R a b -> S a b) -> StronglySorted R l -> StronglySorted S l.
Proof.
  intros HRS. induction 1 as [|x r Hs IH Hx]; constructor; auto.
  apply Forall_forall. rewrite Forall_forall in Hx. auto.
Qed.

Lemma StronglySorted_all {A : Type} (R : A -> A -> Prop) (l : list A) :
  (forall a b, In b l -> R a b) -> StronglySorted R l.
Proof.
  induction l as [|x r IH]; intros H; constructor.
  - apply IH. intros a b Hb. apply H. simpl; auto.
  - apply Forall_forall. intros b Hb. apply H. simpl; auto.
Qed.

Lemma StronglySorted_map {A B : Type} (R : B -> B -> Prop) (f : A -> B)
    (l : list A) :
  StronglySorted (fun a b => R (f a) (f b)) l -> StronglySorted R (map f l).
Proof.
  induction 1 as [|x r Hs IH Hx]; simpl; constructor; auto.
  apply Forall_forall. intros b Hb. apply in_map_iff in Hb.
  destruct Hb as [a [<- Ha]]. rewrite Forall_forall in Hx. auto.
Qed.

(** A ranking is in descending order, its nulls last. *)
Lemma sort_values_desc_sorted {A : Type} (key : A -> fval) (l : list A) :
  StronglySorted (fun a b => desc_nan_last (key a) (key b))
    (sort_values_desc key l).
Proof.
  unfold sort_values_desc. apply StronglySorted_app.
  - apply StronglySorted_weaken
      with (R := fun a b => fleb (key b) (key a) = true).
    { intros a b H. right. exact H. }
    apply (sort_by_sorted _ (fun a => isna (key a) = false)).
    + intros x y Hx Hy.
      destruct (fleb_total (key x) (key y) Hx Hy); auto.
    + intros x y z Hxy Hyz. apply (fleb_trans _ (key y)); assumption.
    + apply Forall_forall. intros x Hx. apply filter_In in Hx.
      apply negb_true_iff, Hx.
  - apply StronglySorted_all. intros a b Hb. left.
    apply filter_In in Hb. apply Hb.
  - intros a b _ Hb. left. apply filter_In in Hb. apply Hb.
Qed.

(** ** Monthly returns *)

Lemma month_eqb_eq (a b : Month) : month_eqb a b = true <-> a = b.
Proof.
  destruct a as [y m], b as [y' m']. unfold month_eqb. simpl.
  rewrite andb_true_iff, !Z.eqb_eq. split.
  - intros [-> ->]. reflexivity.
  - intros E. injection E as -> ->. auto.
Qed.

Lemma monthly_agg_tickers (df : DataFrame) (m : Month) :
  map m_ticker (monthly_agg df m) = group_keys (col_ticker (monthly df m)).
Proof.
  unfold monthly_agg, groupby_agg. rewrite !map_map. simpl. apply map_id.
Qed.

Lemma monthly_agg_row (df : DataFrame) (m : Month) (row : MonthlyRow) :
  In row (monthly_agg df m) ->
  exists first_rec rest,
    records_of (m_ticker row) (monthly df m) = first_rec :: rest /\
    m_first row = Num (close first_rec) /\
    m_last row = Num (close (last (first_rec :: rest) first_rec)) /\
    m_monthly_return row = fdiv (fsub (m_last row) (m_first row)) (m_first row).
Proof.
  unfold monthly_agg, groupby_agg. rewrite map_map. cbn [fst snd].
  intros H. apply in_map_iff in H. destruct H as [g [<- Hg]].
  cbn [m_ticker m_first m_last m_monthly_return].
  apply (proj1 (group_keys_In _ _)) in Hg. unfold col_ticker in Hg.
  apply in_map_iff in Hg. destruct Hg as [r [Hr Hin]].
  rewrite close_column_of_group. unfold closes_of.
  destruct (records_of g (monthly df m)) as [|r0 rs] eqn:E.
  - exfalso. assert (In r (records_of g (monthly df m))) as Hc.
    { apply filter_In. split; [exact Hin|]. apply String.eqb_eq. exact Hr. }
    rewrite E in Hc. exact Hc.
  - exists r0, rs. split; [reflexivity|].
    change (map close (r0 :: rs)) with (close r0 :: map close rs).
    rewrite first_valid_closes, last_valid_closes.
    change (close r0 :: map close rs) with (map close (r0 :: rs)).
    rewrite (last_map_default close (r0 :: rs) r0) by discriminate.
    auto.
Qed.

(** C7.  For every month, the monthly summary has one row for each ticker
    with a record in that month and no row for any other ticker; the row
    holds the first and the last close of the ticker within the month, in
    date order, and its return is (last - first) / first of these two
    closes alone. *)
Theorem monthly_summary_spec (raw : DataFrame) (m : Month) :
  let df := preprocess raw in
  let ms := monthly_return df m in
  NoDup (map m_ticker ms) /\
  (forall g, In g (map m_ticker ms) <->
             exists r, In r df /\ ticker r = g /\ to_period_M (date r) = m) /\
  (forall row, In row ms ->
     exists first_rec rest,
       records_of (m_ticker row) (monthly df m) = first_rec :: rest /\
       StronglySorted (fun a b => date_leb (date a) (date b) = true)
         (first_rec :: rest) /\
       let last_rec := last (first_rec :: rest) first_rec in
       m_first row = Num (close first_rec) /\
       m_last row = Num (close last_rec) /\
       m_monthly_return row
       = fdiv (fsub (Num (close last_rec)) (Num (close first_rec)))
              (Num (close first_rec)) /\
       (~ close first_rec == 0 ->
        m_monthly_return row
        = Num ((close last_rec - close first_rec) / close first_rec))).
Proof.
  intros df ms.
  assert (Hperm : Permutation (map m_ticker (monthly_agg df m))
                              (map m_ticker ms)).
  { apply Permutation_map. apply sort_values_desc_perm. }
  split; [|split].
  - apply (Permutation_NoDup Hperm). rewrite monthly_agg_tickers.
    apply group_keys_NoDup.
  - intros g.
    transitivity (In g (map m_ticker (monthly_agg df m))).
    { split; apply Permutation_in; [symmetry|]; exact Hperm. }
    rewrite monthly_agg_tickers, group_keys_In.
    unfold col_ticker, monthly. rewrite in_map_iff.
    split; intros [r [H1 H2]]; exists r.
    + apply filter_In in H2. destruct H2 as [H2 H3].
      apply month_eqb_eq in H3. auto.
    + destruct H2 as [H2 H3]. split; [exact H2|].
      apply filter_In. split; [exact H1|]. apply month_eqb_eq. exact H3.
  - intros row Hrow. apply sort_values_desc_In in Hrow.
    destruct (monthly_agg_row df m row Hrow)
      as [first_rec [rest [Hrs [Hf [Hl Hret]]]]].
    exists first_rec, rest. split; [exact Hrs|]. split.
    { rewrite <- Hrs. unfold records_of, monthly.
      do 2 apply StronglySorted_filter.
      apply (sort_by_sorted by_date (fun _ => True)).
      - intros x y _ _. apply date_leb_total.
      - intros x y z. apply date_leb_trans.
      - apply Forall_forall. auto. }
    cbv zeta. split; [exact Hf|]. split; [exact Hl|].
    rewrite Hret, Hf, Hl. split; [reflexivity|].
    intros Hnz. cbn [fsub fdiv].
    destruct (Qeq_bool (close first_rec) 0) eqn:E; [|reflexivity].
    apply Qeq_bool_eq in E. contradiction.
Qed.

Lemma monthly_summary_spec_witness :
  exists first_rec rest,
    records_of "p" (monthly (preprocess january_partial) (2024, 1)%Z)
    = first_rec :: rest /\
    m_monthly_return (mkMonthly "p" (Num 4) (Num 8) (Num ((8 - 4) / 4)))
    = fdiv (fsub (Num (close (last (first_rec :: rest) first_rec)))
                 (Num (close first_rec)))
           (Num (close first_rec)).
Proof.
  destruct (proj2 (proj2 (monthly_summary_spec january_partial (2024, 1)%Z))
              (mkMonthly "p" (Num 4) (Num 8) (Num ((8 - 4) / 4))))
    as [first_rec [rest [H1 [_ [_ [_ [H2 _]]]]]]].
  - left. reflexivity.
  - exists first_rec, rest. split; [exact H1 | exact H2].
Defined.


(** ** Sums of rationals and the Cauchy-Schwarz inequality *)

Lemma Qsquare_nonneg (x : Q) : 0 <= x * x.
Proof.
  destruct (Qlt_le_dec x 0) as [H|H].
  - setoid_replace (x * x) with ((- x) * (- x)) by ring.
    apply Qmult_le_0_compat; lra.
  - apply Qmult_le_0_compat; assumption.
Qed.




Lemma fold_left_Qplus (l : list Q) (a : Q) :
  fold_left Qplus l a == a + fold_left Qplus l 0.
Proof.
  revert a. induction l as [|x l IH]; intros a; simpl; [ring|].
  rewrite (IH (a + x)), (IH (0 + x)). ring.
Qed.

Lemma Qsum_cons (x : Q) (l : list Q) : Qsum (x :: l) == x + Qsum l.
Proof.
  unfold Qsum. simpl. rewrite fold_left_Qplus. ring.
Qed.





(** ** Volatility *)

Lemma firstn_In {A : Type} (n : nat) (l : list A) (x : A) :
  In x (firstn n l) -> In x l.
Proof.
  intros H. rewrite <- (firstn_skipn n l). apply in_or_app. left. exact H.
Qed.

Lemma firstn_NoDup {A : Type} (n : nat) (l : list A) :
  NoDup l -> NoDup (firstn n l).
Proof.
  intros H. rewrite <- (firstn_skipn n l) in H.
  apply NoDup_app_remove_r in H. exact H.
Qed.

Lemma firstn_StronglySorted {A : Type} (R : A -> A -> Prop) (n : nat)
    (l : list A) :
  StronglySorted R l -> StronglySorted R (firstn n l).
Proof.
  intros H. revert n. induction H as [|x r Hs IH Hx]; intros [|n]; simpl;
    try constructor; auto.
  apply Forall_forall. intros b Hb. rewrite Forall_forall in Hx.
  apply Hx. apply (firstn_In n). exact Hb.
Qed.

Lemma var_few (xs : list fval) : (count xs < 2)%nat -> var xs = NaN.
Proof.
  unfold var, count. intros H.
  destruct (Nat.leb_spec (List.length (dropna xs)) 1); [reflexivity | lia].
Qed.

Lemma volatility_ranking_items (df : DataFrame) (g : string) (s : root) :
  In (g, s) (sort_values_desc (fun kv => radicand (snd kv))
               (groupby_agg std (col_ticker df) (col_daily_return df)))
  <-> In g (col_ticker df) /\ s = std (column_of g df (col_daily_return df)).
Proof.
  rewrite sort_values_desc_In. unfold groupby_agg. rewrite in_map_iff.
  split.
  - intros [k [E Hk]]. injection E as -> <-.
    split; [apply group_keys_In; exact Hk | reflexivity].
  - intros [Hg ->]. exists g. split; [reflexivity|].
    apply group_keys_In. exact Hg.
Qed.

Lemma fsum_from_Num (qs : list Q) (a : Q) :
  fold_left fadd (map Num qs) (Num a) = Num (fold_left Qplus qs a).
Proof.
  revert a. induction qs as [|q r IH]; intros a; simpl; auto.
Qed.

Lemma fsum_Num (qs : list Q) : fsum (map Num qs) = Num (Qsum qs).
Proof. apply fsum_from_Num. Qed.

Lemma fdiv_of_nat (a : Q) (n : nat) :
  (1 <= n)%nat -> fdiv (Num a) (of_nat n) = Num (a / inject_Z (Z.of_nat n)).
Proof.
  intros H. unfold of_nat. cbn [fdiv].
  destruct (Qeq_bool (inject_Z (Z.of_nat n)) 0) eqn:E; [|reflexivity].
  apply Qeq_bool_eq in E. unfold Qeq, inject_Z in E. simpl in E. lia.
Qed.

(** On finite observations, two or more, [var] is the textbook sample
    variance. *)
Lemma var_finite (xs : list fval) (qs : list Q) :
  dropna xs = map Num qs -> (2 <= List.length qs)%nat ->
  var xs = Num (Qvar qs).
Proof.
  intros E Hn. unfold var. rewrite E, length_map.
  destruct (Nat.leb_spec (List.length qs) 1) as [H|H]; [lia|].
  cbv zeta. rewrite fsum_Num, fdiv_of_nat by lia.
  rewrite map_map.
  rewrite (map_ext
             (fun q => fmul (fsub (Num q) (Num (Qsum qs / inject_Z (Z.of_nat (List.length qs)))))
                            (fsub (Num q) (Num (Qsum qs / inject_Z (Z.of_nat (List.length qs))))))
             (fun q => Num ((q - Qmean qs) * (q - Qmean qs))))
    by reflexivity.
  rewrite <- (map_map (fun q => (q - Qmean qs) * (q - Qmean qs)) Num).
  rewrite fsum_Num, fdiv_of_nat by lia. reflexivity.
Qed.

Lemma Qsum_nonneg (l : list Q) : Forall (fun q => 0 <= q) l -> 0 <= Qsum l.
Proof.
  induction 1 as [|x r Hx Hr IH]; [discriminate|].
  rewrite Qsum_cons. lra.
Qed.

(** The radicand of a standard deviation is not negative. *)
Lemma Qvar_nonneg (qs : list Q) : 0 <= Qvar qs.
Proof.
  unfold Qvar, Qdiv. apply Qmult_le_0_compat.
  - apply Qsum_nonneg. apply Forall_forall. intros q Hq.
    apply in_map_iff in Hq. destruct Hq as [x [<- _]].
    apply Qsquare_nonneg.
  - apply Qinv_le_0_compat. unfold Qle, inject_Z. simpl. lia.
Qed.

(** Roots are ranked as their radicands are. *)
Lemma desc_root_ge (r1 r2 : root) :
  desc_nan_last (radicand r1) (radicand r2) -> root_ge r1 r2.
Proof.
  intros H a b Ha Hb.
  destruct r1 as [[x| | |]], r2 as [[y| | |]]; try discriminate.
  injection Ha as <-. injection Hb as <-.
  destruct H as [H|H]; [discriminate|].
  simpl in H. apply Qle_bool_iff in H.
  apply sqrt_le_1_alt. apply Qle_Rle. exact H.
Qed.



(** ** The yearly export *)

(** C3, the header the script writes.  The series of line 57 is named
    "close", as both of its operands are, so no column is labelled 0, the
    renaming of line 72 finds nothing to rename, and the second column of
    the export is headed "close"; the export has one row per ticker, holding
    the yearly return of the ticker. *)
Theorem csv_yearly_header (raw : DataFrame) :
  let df := preprocess raw in
  csv_header (csv_yearly df) = ["ticker"; "close"] /\
  csv_column "yearly_return" (csv_yearly df) = None /\
  csv_column "ticker" (csv_yearly df)
  = Some (map CStr (group_keys (col_ticker df))) /\
  csv_column "close" (csv_yearly df)
  = Some (map (fun g => CNum (yearly_of df g)) (group_keys (col_ticker df))).
Proof.
  intros df.
  assert (Hh : csv_header (csv_yearly df) = ["ticker"; "close"])
    by reflexivity.
  assert (Hr : csv_rows (csv_yearly df)
               = map (fun g => [CStr g; CNum (yearly_of df g)])
                   (group_keys (col_ticker df))).
  { unfold csv_yearly, to_csv, rename_column, series_reset_index.
    cbn [csv_rows t_rows]. rewrite df_yearly_items, map_map. reflexivity. }
  unfold csv_column. rewrite Hh, Hr. simpl. rewrite !map_map. simpl. auto.
Qed.

(** Had the series no name, line 72 would head the column
    "yearly_return". *)
Lemma rename_unnamed_series (items : list (string * fval)) :
  csv_header
    (to_csv (rename_column (LInt 0) (LStr "yearly_return")
               (series_reset_index (mkSeries None (Some "ticker") items))))
  = ["ticker"; "yearly_return"].
Proof. reflexivity. Qed.

(** ** Pearson's coefficient *)







(** Padding a padded frame changes nothing, so the padding the default
    fill method of [pct_change] does first has no effect on line 121. *)
Lemma fill_row_idem (prev r : list fval) :
  zip_with (fun p x => if isna x then p else x) prev
    (zip_with (fun p x => if isna x then p else x) prev r)
  = zip_with (fun p x => if isna x then p else x) prev r.
Proof.
  revert r. induction prev as [|p prev IH]; intros [|x r]; simpl; auto.
  rewrite IH. f_equal. destruct x; simpl; auto. destruct p; reflexivity.
Qed.

Lemma ffill_rows_idem (prev : list fval) (rows : list (Date * list fval)) :
  ffill_rows prev (ffill_rows prev rows) = ffill_rows prev rows.
Proof.
  revert prev. induction rows as [|[dt r] rs IH]; intros prev; simpl; auto.
  rewrite fill_row_idem, IH. reflexivity.
Qed.

Lemma pivot_padded (df : DataFrame) : frame_ffill (pivot df) = pivot df.
Proof.
  unfold pivot, frame_ffill. cbn [f_columns f_rows].
  rewrite ffill_rows_idem. reflexivity.
Qed.

Lemma nth_error_seq_lt (a k i : nat) :
  (i < k)%nat -> nth_error (seq a k) i = Some (a + i)%nat.
Proof.
  revert a i. induction k as [|k IH]; intros a i H; [lia|].
  destruct i as [|i]; simpl.
  - f_equal. lia.
  - rewrite IH by lia. f_equal. lia.
Qed.

Lemma seq_length_bound (a k i : nat) :
  nth_error (seq a k) i <> None -> (i < k)%nat.
Proof.
  intros H. apply nth_error_Some in H. rewrite length_seq in H. exact H.
Qed.

(** The matrix holds [corr_entry] at every pair of column positions. *)
Lemma corr_at_entry (df : DataFrame) (i j : nat) (e : surd) :
  corr_at df i j = Some e <->
  (i < List.length (f_columns (returns df)))%nat /\
  (j < List.length (f_columns (returns df)))%nat /\
  e = corr_entry (returns df) i j.
Proof.
  unfold corr_at, corr, frame_corr.
  set (f := returns df). set (k := List.length (f_columns f)).
  rewrite nth_error_map.
  destruct (Nat.lt_ge_cases i k) as [Hi|Hi].
  - rewrite nth_error_seq_lt by exact Hi. cbn [option_map Nat.add].
    rewrite nth_error_map.
    destruct (Nat.lt_ge_cases j k) as [Hj|Hj].
    + rewrite nth_error_seq_lt by exact Hj. cbn [option_map Nat.add snd].
      split.
      * intros H. injection H as <-. auto.
      * intros [_ [_ ->]]. reflexivity.
    + assert (E : nth_error (seq 0 k) j = None).
      { apply nth_error_None. rewrite length_seq. exact Hj. }
      rewrite E. cbn [option_map]. split; [discriminate | lia].
  - assert (E : nth_error (seq 0 k) i = None).
    { apply nth_error_None. rewrite length_seq. exact Hi. }
    rewrite E. cbn [option_map]. split; [discriminate | lia].
Qed.




(** * The rest of the script *)

(** ** Ticker names (line 46) *)

Lemma is_space_lower (c : ascii) : is_space (lower_ascii c) = is_space c.
Proof. destruct c as [[] [] [] [] [] [] [] []]; reflexivity. Qed.

Lemma lower_ascii_idem (c : ascii) : lower_ascii (lower_ascii c) = lower_ascii c.
Proof. destruct c as [[] [] [] [] [] [] [] []]; reflexivity. Qed.

Lemma is_upper_lower (c : ascii) : is_upper (lower_ascii c) = false.
Proof. destruct c as [[] [] [] [] [] [] [] []]; reflexivity. Qed.

Lemma str_lower_idem (s : string) : str_lower (str_lower s) = str_lower s.
Proof.
  induction s as [|c r IH]; simpl; [reflexivity|].
  rewrite lower_ascii_idem, IH. reflexivity.
Qed.

Lemma lstrip_lower (s : string) : lstrip (str_lower s) = str_lower (lstrip s).
Proof.
  induction s as [|c r IH]; simpl; [reflexivity|].
  rewrite is_space_lower. destruct (is_space c); [exact IH | reflexivity].
Qed.

Lemma rstrip_lower (s : string) : rstrip (str_lower s) = str_lower (rstrip s).
Proof.
  induction s as [|c r IH]; simpl; [reflexivity|].
  rewrite IH, is_space_lower.
  destruct (rstrip r); simpl; [destruct (is_space c)|]; reflexivity.
Qed.

Lemma str_strip_lower (s : string) :
  str_strip (str_lower s) = str_lower (str_strip s).
Proof. unfold str_strip. rewrite lstrip_lower, rstrip_lower. reflexivity. Qed.

Lemma lstrip_first (s : string) (c : ascii) :
  first_char (lstrip s) = Some c -> is_space c = false.
Proof.
  induction s as [|x r IH]; simpl; [discriminate|].
  destruct (is_space x) eqn:E; [exact IH|].
  simpl. intros H. injection H as <-. exact E.
Qed.

Lemma rstrip_first (s : string) (c : ascii) :
  first_char s = Some c -> is_space c = false ->
  first_char (rstrip s) = Some c.
Proof.
  destruct s as [|x r]; simpl; [discriminate|].
  intros H E. injection H as ->.
  destruct (rstrip r); [rewrite E|]; reflexivity.
Qed.

Lemma rstrip_first_inv (s : string) (c : ascii) :
  first_char (rstrip s) = Some c -> first_char s = Some c.
Proof.
  destruct s as [|x r]; simpl; [discriminate|].
  destruct (rstrip r); [destruct (is_space x)|]; simpl; congruence.
Qed.

Lemma last_cons_default {A : Type} (l : list A) (x y : A) :
  last (y :: l) x = last l y.
Proof.
  revert x y. induction l as [|z l IH]; intros x y; [reflexivity|].
  change (last (y :: z :: l) x) with (last (z :: l) x).
  rewrite (IH x z), (IH y z). reflexivity.
Qed.

Lemma last_char_cons (x : ascii) (s : string) (c : ascii) :
  last_char s = Some c -> last_char (String x s) = Some c.
Proof.
  unfold last_char. cbn [list_ascii_of_string].
  destruct (list_ascii_of_string s) as [|y l]; [discriminate|].
  intros H. injection H as <-. rewrite last_cons_default. reflexivity.
Qed.

Lemma rstrip_last (s : string) (c : ascii) :
  last_char (rstrip s) = Some c -> is_space c = false.
Proof.
  induction s as [|x r IH]; simpl; [discriminate|].
  destruct (rstrip r) as [|y t] eqn:E.
  - destruct (is_space x) eqn:Ex; [discriminate|].
    unfold last_char. simpl. intros H. injection H as <-. exact Ex.
  - intros H. apply IH. unfold last_char in *.
    cbn [list_ascii_of_string] in *.
    rewrite last_cons_default in H. exact H.
Qed.

Lemma lstrip_fixed (s : string) :
  (forall c, first_char s = Some c -> is_space c = false) -> lstrip s = s.
Proof.
  destruct s as [|x r]; simpl; [reflexivity|].
  intros H. rewrite (H x eq_refl). reflexivity.
Qed.

Lemma rstrip_idem (s : string) : rstrip (rstrip s) = rstrip s.
Proof.
  induction s as [|x r IH]; simpl; [reflexivity|].
  destruct (rstrip r) as [|y t] eqn:E.
  - destruct (is_space x) eqn:Ex; simpl; [reflexivity|].
    rewrite Ex. reflexivity.
  - cbn [rstrip]. fold rstrip. 
    change (match rstrip (String y t) with
            | EmptyString => if is_space x then EmptyString else String x EmptyString
            | String a s0 => String x (String a s0)
            end = String x (String y t)).
    rewrite IH. reflexivity.
Qed.

Lemma str_strip_idem (s : string) : str_strip (str_strip s) = str_strip s.
Proof.
  unfold str_strip.
  rewrite (lstrip_fixed (rstrip (lstrip s))).
  - apply rstrip_idem.
  - intros c H. apply rstrip_first_inv in H. apply (lstrip_first s). exact H.
Qed.

Lemma str_lower_no_upper (s : string) (c : ascii) :
  In c (list_ascii_of_string (str_lower s)) -> is_upper c = false.
Proof.
  induction s as [|x r IH]; simpl; [contradiction|].
  intros [<-|H]; [apply is_upper_lower | apply IH; exact H].
Qed.

Lemma first_char_lower (s : string) (c : ascii) :
  first_char (str_lower s) = Some c ->
  exists x, first_char s = Some x /\ c = lower_ascii x.
Proof.
  destruct s as [|x r]; simpl; [discriminate|].
  intros H. injection H as <-. eauto.
Qed.

Lemma last_char_lower (s : string) (c : ascii) :
  last_char (str_lower s) = Some c ->
  exists x, last_char s = Some x /\ c = lower_ascii x.
Proof.
  unfold last_char.
  assert (E : list_ascii_of_string (str_lower s)
              = map lower_ascii (list_ascii_of_string s)).
  { induction s as [|x r IH]; simpl; congruence. }
  rewrite E. destruct (list_ascii_of_string s) as [|x l]; simpl;
    [discriminate|].
  intros H. injection H as <-. exists (last l x). split; [reflexivity|].
  clear E. revert x. induction l as [|y l IH]; intros x; [reflexivity|].
  cbn [map]. rewrite !last_cons_default. apply IH.
Qed.

Lemma normalise_idem (r : PriceRecord) : normalise (normalise r) = normalise r.
Proof.
  unfold normalise. cbn [ticker date close].
  rewrite str_strip_lower, str_lower_idem, str_strip_idem. reflexivity.
Qed.

Lemma preprocess_In (raw : DataFrame) (r : PriceRecord) :
  In r (preprocess raw) <-> exists r0, In r0 raw /\ r = normalise r0.
Proof.
  unfold preprocess. split.
  - intros H.
    apply (Permutation_in _ (Permutation_sym (sort_by_perm by_date _))) in H.
    apply in_map_iff in H. destruct H as [r0 [<- H]]. eauto.
  - intros [r0 [H ->]].
    apply (Permutation_in _ (sort_by_perm by_date _)).
    apply in_map. exact H.
Qed.

Lemma lower_ascii_keeps_ascii (c : ascii) :
  (nat_of_ascii c < 128)%nat -> (nat_of_ascii (lower_ascii c) < 128)%nat.
Proof.
  destruct c as [[] [] [] [] [] [] [] []]; vm_compute; intros H;
    first [exact H | lia].
Qed.

Lemma lstrip_chars (s : string) (c : ascii) :
  In c (list_ascii_of_string (lstrip s)) -> In c (list_ascii_of_string s).
Proof.
  induction s as [|x r IH]; simpl; [auto|].
  destruct (is_space x); simpl; auto.
Qed.

Lemma rstrip_chars (s : string) (c : ascii) :
  In c (list_ascii_of_string (rstrip s)) -> In c (list_ascii_of_string s).
Proof.
  induction s as [|x r IH]; simpl; [auto|].
  destruct (rstrip r) as [|y t].
  - destruct (is_space x); simpl; tauto.
  - simpl in *. intros [H|H]; auto.
Qed.

Lemma str_lower_chars (s : string) (c : ascii) :
  In c (list_ascii_of_string (str_lower s)) ->
  exists x, In x (list_ascii_of_string s) /\ c = lower_ascii x.
Proof.
  induction s as [|x r IH]; simpl; [contradiction|].
  intros [<-|H]; [eauto|]. destruct (IH H) as [y [Hy ->]]. eauto.
Qed.

Lemma normalise_ascii_only (s : string) :
  ascii_only s -> ascii_only (str_lower (str_strip s)).
Proof.
  unfold ascii_only. rewrite !Forall_forall. intros H c Hc.
  apply str_lower_chars in Hc. destruct Hc as [x [Hx ->]].
  apply lower_ascii_keeps_ascii. apply H.
  unfold str_strip in Hx. apply rstrip_chars, lstrip_chars in Hx. exact Hx.
Qed.

(** X1.  For data whose ticker names are made of ASCII characters: after
    lines 46 and 48 a ticker name is still made of ASCII characters, has no
    white space at either end and no upper-case letter, and normalising it
    again changes nothing. *)
Theorem ticker_normal_form (raw : DataFrame) (r : PriceRecord) :
  Forall (fun r0 => ascii_only (ticker r0)) raw ->
  In r (preprocess raw) ->
  ascii_only (ticker r) /\
  (forall c, first_char (ticker r) = Some c -> is_space c = false) /\
  (forall c, last_char (ticker r) = Some c -> is_space c = false) /\
  (forall c, In c (list_ascii_of_string (ticker r)) -> is_upper c = false) /\
  normalise r = r.
Proof.
  intros Hascii H. apply preprocess_In in H. destruct H as [r0 [Hr0 ->]].
  rewrite Forall_forall in Hascii. specialize (Hascii r0 Hr0).
  unfold normalise at 1 2 3 4. cbn [ticker].
  split; [apply normalise_ascii_only; exact Hascii|].
  split; [|split; [|split]].
  - intros c H. apply first_char_lower in H. destruct H as [x [H ->]].
    rewrite is_space_lower. unfold str_strip in H.
    apply rstrip_first_inv in H. apply (lstrip_first _ _ H).
  - intros c H. apply last_char_lower in H. destruct H as [x [H ->]].
    rewrite is_space_lower. apply (rstrip_last _ _ H).
  - apply str_lower_no_upper.
  - apply normalise_idem.
Qed.

Lemma ticker_normal_form_witness :
  normalise (mkPrice "a" (ymd 2024 1 1) 10) = mkPrice "a" (ymd 2024 1 1) 10.
Proof.
  apply (ticker_normal_form scenario_A_B (mkPrice "a" (ymd 2024 1 1) 10)).
  - unfold ascii_only. vm_compute. repeat constructor.
  - vm_compute. left. reflexivity.
Defined.

(** X2.  Line 48 loses and adds no record, in the frame and in every
    ticker, and leaves the whole frame in ascending date order. *)
Theorem preprocess_sorted_permutation (raw : DataFrame) :
  Permutation (map normalise raw) (preprocess raw) /\
  List.length (preprocess raw) = List.length raw /\
  StronglySorted (fun a b => date_leb (date a) (date b) = true)
    (preprocess raw) /\
  (forall g, Permutation (records_of g (map normalise raw))
               (records_of g (preprocess raw))).
Proof.
  assert (Hp : Permutation (map normalise raw) (preprocess raw))
    by apply sort_by_perm.
  split; [exact Hp|]. split.
  { rewrite <- (Permutation_length Hp). apply length_map. }
  split.
  - apply (sort_by_sorted by_date (fun _ => True)).
    + intros x y _ _. apply date_leb_total.
    + intros x y z. apply date_leb_trans.
    + apply Forall_forall. auto.
  - intros g. apply records_of_perm.
Qed.

(** ** Sectors (lines 24-47) *)

Lemma dict_get_In {V : Type} (m : list (string * V)) (k : string) (v : V) :
  dict_get m k = Some v -> In (k, v) m.
Proof.
  induction m as [|[k' v'] r IH]; simpl; [discriminate|].
  destruct (String.eqb k' k) eqn:E.
  - apply String.eqb_eq in E. subst. intros H. injection H as ->. auto.
  - auto.
Qed.

(** X3.  Every ticker listed in the sector table gets the sector listed
    with it: no entry is hidden by another, every listed name is in the
    form line 46 produces, so a normalised ticker can match it, and no
    listed sector is called "Unknown".  A ticker is in the "Unknown" bucket
    exactly when the table does not list it. *)
Theorem sector_of_spec :
  (forall k v, In (k, v) nifty_sector_map ->
     sector_of k = v /\ str_lower (str_strip k) = k /\ v <> "Unknown") /\
  (forall t, sector_of t = "Unknown" <-> dict_get nifty_sector_map t = None).
Proof.
  assert (Hall : forall k v, In (k, v) nifty_sector_map ->
     sector_of k = v /\ str_lower (str_strip k) = k /\ v <> "Unknown").
  { assert (Hb : forallb (fun kv =>
                   String.eqb (sector_of (fst kv)) (snd kv)
                   && String.eqb (str_lower (str_strip (fst kv))) (fst kv)
                   && negb (String.eqb (snd kv) "Unknown"))
                   nifty_sector_map = true) by (vm_compute; reflexivity).
    intros k v H. rewrite forallb_forall in Hb. specialize (Hb _ H).
    cbn [fst snd] in Hb.
    apply andb_true_iff in Hb. destruct Hb as [Hb H3].
    apply andb_true_iff in Hb. destruct Hb as [H1 H2].
    apply String.eqb_eq in H1. apply String.eqb_eq in H2.
    apply negb_true_iff, String.eqb_neq in H3. auto. }
  split; [exact Hall|].
  intros t. unfold sector_of.
  destruct (dict_get nifty_sector_map t) as [s|] eqn:E.
  - split; [|discriminate]. intros ->.
    apply dict_get_In in E. apply Hall in E. destruct E as [_ [_ E]].
    contradiction.
  - split; reflexivity.
Qed.

Lemma sector_of_spec_witness : sector_of "wipro" = "Technology".
Proof.
  apply (proj1 sector_of_spec "wipro" "Technology").
  apply in_rev. left. reflexivity.
Defined.

(** ** The loader (lines 10-21) *)

Lemma load_data_In (store : Store) (df : DataFrame) (r : PriceRecord) :
  load_data store = Some df ->
  (In r df <->
   exists name rows dt c,
     In (name, rows) store /\ In (dt, c) rows /\
     r = mkPrice (str_lower name) dt c).
Proof.
  intros H. assert (E : df = flat_map read_table store).
  { destruct store; [discriminate|]. injection H as <-. reflexivity. }
  rewrite E, in_flat_map. unfold read_table. split.
  - intros [[name rows] [Hs Hr]]. cbn [fst snd] in Hr.
    apply in_map_iff in Hr. destruct Hr as [[dt c] [<- Hr]].
    exists name, rows, dt, c. auto.
  - intros [name [rows [dt [c [Hs [Hr ->]]]]]].
    exists (name, rows). split; [exact Hs|]. cbn [fst snd].
    apply in_map_iff. exists (dt, c). auto.
Qed.

(** X4.  The loader fails exactly on a store without tables.  Otherwise,
    for tables whose names are made of ASCII characters, the tickers of the
    frame after lines 46 and 48 are the trimmed lower-case names of the
    tables that have a row; a table without rows leaves no ticker, and
    lowering the names a second time on line 46 changes nothing. *)
Theorem load_data_tickers (store : Store) :
  (load_data store = None <-> store = []) /\
  (forall df g, load_data store = Some df ->
     Forall (fun t => ascii_only (fst t)) store ->
     (In g (col_ticker (preprocess df)) <->
      exists name rows,
        In (name, rows) store /\ rows <> [] /\
        g = str_strip (str_lower name)) /\
     (In g (col_ticker (preprocess df)) -> ascii_only g)).
Proof.
  split.
  { destruct store; simpl; split; congruence. }
  intros df g H Hascii.
  assert (Hiff : In g (col_ticker (preprocess df)) <->
                 exists name rows,
                   In (name, rows) store /\ rows <> [] /\
                   g = str_strip (str_lower name)).
  { unfold col_ticker. rewrite in_map_iff. split.
    - intros [r [<- Hr]]. apply preprocess_In in Hr.
      destruct Hr as [r0 [Hr0 ->]].
      apply (load_data_In store df r0 H) in Hr0.
      destruct Hr0 as [name [rows [dt [c [Hs [Hr ->]]]]]].
      exists name, rows. split; [exact Hs|]. split.
      + intros ->. contradiction.
      + cbn [normalise ticker].
        rewrite str_strip_lower, str_lower_idem, <- str_strip_lower.
        reflexivity.
    - intros [name [rows [Hs [Hne ->]]]].
      destruct rows as [|[dt c] rows]; [congruence|].
      exists (normalise (mkPrice (str_lower name) dt c)). split.
      + cbn [normalise ticker].
        rewrite str_strip_lower, str_lower_idem, <- str_strip_lower.
        reflexivity.
      + apply preprocess_In. exists (mkPrice (str_lower name) dt c).
        split; [|reflexivity].
        apply (load_data_In store df _ H).
        exists name, ((dt, c) :: rows), dt, c. simpl. auto. }
  split; [exact Hiff|].
  intros Hg. apply Hiff in Hg. destruct Hg as [name [rows [Hs [_ ->]]]].
  rewrite str_strip_lower. apply normalise_ascii_only.
  rewrite Forall_forall in Hascii. apply (Hascii (name, rows) Hs).
Qed.

Lemma load_data_tickers_witness :
  In "infosys"
     (col_ticker (preprocess (flat_map read_table two_tables))).
Proof.
  apply (proj1 (proj2 (load_data_tickers two_tables)
           (flat_map read_table two_tables) "infosys" eq_refl
           ltac:(unfold ascii_only; vm_compute; repeat constructor))).
  exists " Infosys", [(ymd 2024 1 2, 15); (ymd 2024 1 1, 14)].
  split; [left; reflexivity|]. split; [discriminate | reflexivity].
Defined.

(** ** Daily and cumulative return along one ticker *)

Lemma pct_change_cons_aux (p : fval) (xs : list fval) :
  zip_with (fun x q => fsub (fdiv x q) (Num 1)) xs (p :: removelast xs)
  = match xs with
    | [] => []
    | x :: r =>
        fsub (fdiv x p) (Num 1)
        :: zip_with (fun x q => fsub (fdiv x q) (Num 1)) r (x :: removelast r)
    end.
Proof.
  destruct xs as [|x r]; [reflexivity|].
  cbn [zip_with]. f_equal.
  destruct r as [|y r]; [reflexivity|]. reflexivity.
Qed.

(** With nonzero closes the daily returns of a ticker are one null and then
    the finite percent changes. *)
Lemma pct_change_steps (c0 : Q) (cs : list Q) :
  Forall (fun c => ~ c == 0) (c0 :: cs) ->
  pct_change (map Num (c0 :: cs)) = NaN :: map Num (steps c0 cs).
Proof.
  intros Hnz. unfold pct_change.
  change (shift1 (map Num (c0 :: cs)))
    with (NaN :: removelast (map Num (c0 :: cs))).
  rewrite pct_change_cons_aux. cbn [map fdiv fsub]. f_equal.
  revert c0 Hnz. induction cs as [|x r IH]; intros c0 Hnz; [reflexivity|].
  rewrite pct_change_cons_aux.
  inversion Hnz as [|? ? H0 Hr]; subst.
  cbn [steps map]. rewrite IH by exact Hr. f_equal.
  cbn [fdiv]. destruct (Qeq_bool c0 0) eqn:E.
  - apply Qeq_bool_eq in E. contradiction.
  - reflexivity.
Qed.

Lemma compound_steps_from (c0 p a : Q) (xs : list Q) :
  ~ c0 == 0 -> Forall (fun c => ~ c == 0) (p :: xs) -> a == p / c0 ->
  Forall2 feq
    (cumprod_from (Num a) (growth_factors (map Num (steps p xs))))
    (map (fun c => Num (c / c0)) xs).
Proof.
  intros H0. revert p a. induction xs as [|x r IH]; intros p a Hnz Ha.
  - constructor.
  - inversion Hnz as [|? ? Hp Hr]; subst.
    cbn [steps map growth_factors cumprod_from isna fadd fmul].
    constructor.
    + simpl. rewrite Ha. field. auto.
    + apply IH; [exact Hr|]. rewrite Ha. field. auto.
Qed.

Lemma last_Forall2_feq (l m : list fval) (x y : fval) :
  Forall2 feq l m -> l <> [] -> last l x =f= last m y.
Proof.
  induction 1 as [|a b l m Hab Hlm IH]; [congruence|]. intros _.
  destruct Hlm as [|a' b' l m Hab' Hlm]; [exact Hab|].
  change (last (a :: a' :: l) x) with (last (a' :: l) x).
  change (last (b :: b' :: m) y) with (last (b' :: m) y).
  apply IH. discriminate.
Qed.

(** X5.  For a ticker without a zero close, the cumulative return of each
    record is its close over the first close of the ticker, in date order;
    the last one is therefore 1 + yearly_return, so ranking tickers by final
    cumulative return ranks them by yearly return. *)
Theorem cumulative_return_is_price_ratio (raw : DataFrame) (g : string)
    (c0 : Q) :
  let df := preprocess raw in
  let cs := closes_of g df in
  let cr := column_of g df (col_cumulative_return df) in
  nth_error cs 0 = Some c0 ->
  Forall (fun c => ~ c == 0) cs ->
  Forall2 feq cr (map (fun c => Num (c / c0)) cs) /\
  last cr NaN =f= fadd (Num 1) (series_get (df_yearly df) g).
Proof.
  intros df cs cr Hc0 Hnz.
  assert (Hcr : cr = compound (pct_change (map Num cs))).
  { unfold cr. rewrite cumulative_return_of_group, daily_return_of_group.
    reflexivity. }
  assert (Hin : In g (col_ticker df)).
  { unfold cs, closes_of in Hc0.
    destruct (records_of g df) as [|r0 rs] eqn:Er; [discriminate|].
    apply (records_of_In_ticker df g r0). rewrite Er. left. reflexivity. }
  rewrite df_yearly_get by exact Hin. unfold yearly_of. fold cs.
  clearbody cs cr. clear Hin.
  destruct cs as [|c cs']; [discriminate|].
  injection Hc0 as ->.
  assert (H0 : ~ c0 == 0) by (inversion Hnz; assumption).
  assert (Hall : Forall2 feq cr (map (fun c => Num (c / c0)) (c0 :: cs'))).
  { rewrite Hcr, pct_change_steps by exact Hnz.
    rewrite compound_growth_factors.
    cbn [growth_factors map isna fadd cumprod].
    constructor.
    - simpl. field. exact H0.
    - apply compound_steps_from; [exact H0 | exact Hnz|]. field. exact H0. }
  split; [exact Hall|].
  rewrite first_valid_closes, last_valid_closes.
  rewrite (last_Forall2_feq _ _ NaN (Num (c0 / c0)) Hall).
  - rewrite (last_map_default (fun c => Num (c / c0)) (c0 :: cs') c0)
      by discriminate.
    cbn [fsub fdiv]. destruct (Qeq_bool c0 0) eqn:E.
    + apply Qeq_bool_eq in E. contradiction.
    + simpl. field. exact H0.
  - intros ->. inversion Hall.
Qed.

Lemma cumulative_return_is_price_ratio_witness :
  last (column_of "x" (preprocess gapped)
          (col_cumulative_return (preprocess gapped))) NaN
  =f= fadd (Num 1) (series_get (df_yearly (preprocess gapped)) "x").
Proof.
  refine (proj2 (cumulative_return_is_price_ratio gapped "x" 4 _ _)).
  - reflexivity.
  - repeat constructor; discriminate.
Defined.

(** ** Volatility of one ticker *)

Lemma steps_length (p : Q) (xs : list Q) :
  List.length (steps p xs) = List.length xs.
Proof.
  revert p. induction xs as [|x r IH]; intros p; simpl; auto.
Qed.

(** With nonzero closes the daily returns of a ticker that are not null are
    its percent changes. *)
Lemma dropna_daily_returns (df : DataFrame) (g : string) (c0 : Q) :
  nth_error (closes_of g df) 0 = Some c0 ->
  Forall (fun c => ~ c == 0) (closes_of g df) ->
  dropna (column_of g df (col_daily_return df))
  = map Num (steps c0 (tl (closes_of g df))).
Proof.
  intros Hc0 Hnz. rewrite daily_return_of_group.
  destruct (closes_of g df) as [|c cs']; [discriminate|].
  injection Hc0 as ->. cbn [tl].
  rewrite pct_change_steps by exact Hnz.
  unfold dropna. cbn [filter isna negb]. apply dropna_map_Num.
Qed.

(** X6.  For a ticker without a zero close, the only null daily return is
    the one of its first record.  Its volatility is null when it has fewer
    than 3 records, and otherwise the root of the sample variance of its
    percent changes, a rational that is not negative. *)
Theorem volatility_needs_three_records (raw : DataFrame) (g : string)
    (c0 : Q) :
  let df := preprocess raw in
  let cs := closes_of g df in
  let dr := column_of g df (col_daily_return df) in
  nth_error cs 0 = Some c0 ->
  Forall (fun c => ~ c == 0) cs ->
  dropna dr = map Num (steps c0 (tl cs)) /\
  count dr = (List.length cs - 1)%nat /\
  ((List.length cs < 3)%nat -> std dr = Sqrt NaN) /\
  ((3 <= List.length cs)%nat ->
   std dr = Sqrt (Num (Qvar (steps c0 (tl cs)))) /\
   0 <= Qvar (steps c0 (tl cs))).
Proof.
  intros df cs dr Hc0 Hnz.
  assert (Hd : dropna dr = map Num (steps c0 (tl cs)))
    by (apply dropna_daily_returns; assumption).
  clearbody cs dr. destruct cs as [|c cs']; [discriminate|].
  cbn [tl List.length] in *.
  assert (Hc : count dr = List.length cs').
  { unfold count. rewrite Hd, length_map. apply steps_length. }
  split; [exact Hd|]. split; [rewrite Hc; lia|]. split.
  - intros Hlen. unfold std. rewrite var_few by lia. reflexivity.
  - intros Hlen. split; [|apply Qvar_nonneg].
    unfold std. rewrite (var_finite dr (steps c0 cs') Hd); [reflexivity|].
    rewrite steps_length. lia.
Qed.

Lemma volatility_needs_three_records_witness :
  std (column_of "x" (preprocess gapped) (col_daily_return (preprocess gapped)))
  = Sqrt (Num (Qvar (steps 4 [5; 6]))).
Proof.
  refine (proj1 (proj2 (proj2 (proj2
            (volatility_needs_three_records gapped "x" 4 _ _))) _)).
  - reflexivity.
  - repeat constructor; discriminate.
  - vm_compute. lia.
Defined.

Lemma Qsum_all_zero (l : list Q) : Forall (fun q => q == 0) l -> Qsum l == 0.
Proof.
  induction 1 as [|x r Hx Hr IH]; [reflexivity|].
  rewrite Qsum_cons, Hx, IH. reflexivity.
Qed.

Lemma Qvar_all_zero (l : list Q) : Forall (fun q => q == 0) l -> Qvar l == 0.
Proof.
  intros H. unfold Qvar.
  assert (Hm : Qmean l == 0).
  { unfold Qmean. rewrite (Qsum_all_zero l H). unfold Qdiv. ring. }
  rewrite Qsum_all_zero; [unfold Qdiv; ring|].
  apply Forall_forall. intros q Hq. apply in_map_iff in Hq.
  destruct Hq as [x [<- Hx]]. rewrite Forall_forall in H.
  rewrite (H x Hx), Hm. ring.
Qed.

Lemma steps_constant (c p : Q) (xs : list Q) :
  ~ c == 0 -> p == c -> Forall (fun x => x == c) xs ->
  Forall (fun q => q == 0) (steps p xs).
Proof.
  intros Hc. revert p. induction xs as [|x r IH]; intros p Hp H; simpl;
    constructor; inversion H as [|? ? Hx Hr]; subst.
  - rewrite Hx, Hp. field. exact Hc.
  - apply IH; assumption.
Qed.

(** X7.  A ticker whose close is the same nonzero price on each of its
    records, three or more, has volatility 0 and yearly return 0. *)
Theorem constant_price_volatility_zero (raw : DataFrame) (g : string)
    (c : Q) :
  let df := preprocess raw in
  let cs := closes_of g df in
  let dr := column_of g df (col_daily_return df) in
  ~ c == 0 ->
  Forall (fun x => x == c) cs ->
  (3 <= List.length cs)%nat ->
  (exists v, std dr = Sqrt (Num v) /\ v == 0) /\
  series_get (df_yearly df) g =f= Num 0.
Proof.
  intros df cs dr Hc Hall Hlen.
  destruct cs as [|c0 cs'] eqn:Ecs; [simpl in Hlen; lia|].
  assert (Hc0 : c0 == c) by (inversion Hall; assumption).
  assert (Hnz : Forall (fun x => ~ x == 0) (closes_of g df)).
  { fold cs. rewrite Ecs. apply Forall_forall. intros x Hx.
    rewrite Forall_forall in Hall. rewrite (Hall x Hx). exact Hc. }
  assert (Hfirst : nth_error (closes_of g df) 0 = Some c0).
  { fold cs. rewrite Ecs. reflexivity. }
  split.
  - pose proof (dropna_daily_returns df g c0 Hfirst Hnz) as Hd.
    fold cs in Hd. rewrite Ecs in Hd. cbn [tl] in Hd.
    exists (Qvar (steps c0 cs')). split.
    { unfold std, dr. rewrite (var_finite _ (steps c0 cs') Hd); [reflexivity|].
      rewrite steps_length. simpl in Hlen. lia. }
    apply Qvar_all_zero. apply (steps_constant c); auto.
    inversion Hall; assumption.
  - assert (Hin : In g (col_ticker df)).
    { unfold cs, closes_of in Ecs.
      destruct (records_of g df) as [|r0 rs] eqn:Er; [discriminate|].
      apply (records_of_In_ticker df g r0). rewrite Er. left. reflexivity. }
    rewrite df_yearly_get by exact Hin. unfold yearly_of. fold cs.
    rewrite Ecs, first_valid_closes, last_valid_closes.
    cbn [fsub fdiv]. destruct (Qeq_bool c0 0) eqn:E.
    + apply Qeq_bool_eq in E. rewrite Hc0 in E. contradiction.
    + simpl.
      assert (Hl : last (c0 :: cs') c0 == c).
      { rewrite Forall_forall in Hall. apply Hall.
        destruct (exists_last (l := c0 :: cs')) as [l' [a E']];
          [discriminate|].
        rewrite E', last_last. apply in_or_app. right. left. reflexivity. }
      rewrite Hl, Hc0. field. exact Hc.
Qed.

Lemma constant_price_volatility_zero_witness :
  series_get (df_yearly (preprocess flat_price)) "k" =f= Num 0.
Proof.
  refine (proj2 (constant_price_volatility_zero flat_price "k" 7 _ _ _)).
  - discriminate.
  - repeat constructor.
  - vm_compute. lia.
Defined.

(** ** Key metrics (lines 67-69) *)

Lemma sign_cases (v : fval) :
  (fltb (Num 0) v = true /\ fleb v (Num 0) = false /\ isna v = false) \/
  (fltb (Num 0) v = false /\ fleb v (Num 0) = true /\ isna v = false) \/
  (fltb (Num 0) v = false /\ fleb v (Num 0) = false /\ isna v = true).
Proof.
  destruct v as [q| | |]; unfold fltb; simpl; auto.
  destruct (Qle_bool q 0) eqn:E.
  - right. left. rewrite andb_false_r. auto.
  - left. rewrite andb_true_r. split; [|auto].
    apply Qle_bool_iff.
    destruct (Qlt_le_dec 0 q) as [H|H]; [apply Qlt_le_weak; exact H|].
    apply Qle_bool_iff in H. congruence.
Qed.

Lemma count_filter_notna (p : fval -> bool) (l : list fval) :
  (forall v, p v = true -> isna v = false) ->
  count (filter p l) = List.length (filter p l).
Proof.
  intros Hp. unfold count, dropna. f_equal.
  induction l as [|x r IH]; simpl; [reflexivity|].
  destruct (p x) eqn:E; [|exact IH].
  simpl. rewrite (Hp x E). simpl. f_equal. exact IH.
Qed.

Lemma sign_partition (l : list fval) :
  (List.length (filter (fun v => fltb (Num 0) v) l)
   + List.length (filter (fun v => fleb v (Num 0)) l)
   + List.length (filter isna l))%nat
  = List.length l.
Proof.
  induction l as [|x r IH]; simpl; [reflexivity|].
  destruct (sign_cases x) as [[-> [-> ->]]|[[-> [-> ->]]|[-> [-> ->]]]];
    simpl; lia.
Qed.

Lemma df_yearly_length (df : DataFrame) :
  List.length (s_items (df_yearly df))
  = List.length (group_keys (col_ticker df)).
Proof. rewrite df_yearly_items. apply length_map. Qed.

Lemma key_metric_counts_aux (df : DataFrame) :
  green_stocks df
  = List.length (filter (fun v => fltb (Num 0) v)
                   (map snd (s_items (df_yearly df)))) /\
  red_stocks df
  = List.length (filter (fun v => fleb v (Num 0))
                   (map snd (s_items (df_yearly df)))).
Proof.
  split; apply count_filter_notna; intros v H.
  - destruct (sign_cases v) as [[_ [_ E]]|[[E _]|[E _]]]; congruence.
  - destruct (sign_cases v) as [[_ [_ E]]|[[_ [_ E]]|[_ [E _]]]]; congruence.
Qed.

(** X8.  Every ticker is counted once on lines 67-68: as green when its
    yearly return is above 0, as red when it is 0 or below, and in neither
    count when its yearly return is null. *)
Theorem key_metric_counts (raw : DataFrame) :
  let df := preprocess raw in
  let ys := map snd (s_items (df_yearly df)) in
  green_stocks df = List.length (filter (fun v => fltb (Num 0) v) ys) /\
  red_stocks df = List.length (filter (fun v => fleb v (Num 0)) ys) /\
  (green_stocks df + red_stocks df + List.length (filter isna ys))%nat
  = List.length (group_keys (col_ticker df)).
Proof.
  intros df ys.
  destruct (key_metric_counts_aux df) as [Hg Hr]. fold ys in Hg, Hr.
  split; [exact Hg|]. split; [exact Hr|].
  rewrite Hg, Hr, sign_partition. unfold ys.
  rewrite length_map. apply df_yearly_length.
Qed.

Lemma mean_Num (qs : list Q) :
  qs <> [] -> mean (map Num qs) = Num (Qsum qs / Qnat (List.length qs)).
Proof.
  intros Hne. unfold mean. rewrite dropna_map_Num.
  destruct qs as [|q r]; [congruence|].
  cbn [map]. change (Num q :: map Num r) with (map Num (q :: r)).
  rewrite fsum_Num, length_map. apply fdiv_of_nat. simpl. lia.
Qed.

Lemma Qsum_indicator {A : Type} (p : A -> bool) (l : list A) :
  Qsum (map (fun a => if p a then 1 else 0) l)
  == Qnat (List.length (filter p l)).
Proof.
  induction l as [|x r IH]; [reflexivity|].
  cbn [map filter]. rewrite Qsum_cons, IH.
  destruct (p x); [|ring].
  cbn [List.length]. unfold Qnat.
  rewrite Nat2Z.inj_succ. unfold Z.succ. rewrite inject_Z_plus. ring.
Qed.

Lemma share_where_value (p : fval -> bool) (s : Series) :
  s_items s <> [] ->
  share_where p s
  =f= Num (Qnat (List.length (filter p (map snd (s_items s))))
           / Qnat (List.length (s_items s))).
Proof.
  intros Hne. unfold share_where.
  rewrite <- (map_map (fun kv => if p (snd kv) then 1 else 0) Num).
  rewrite mean_Num.
  - simpl. rewrite length_map.
    rewrite <- (map_map snd (fun v => if p v then 1 else 0)).
    rewrite Qsum_indicator. reflexivity.
  - destruct (s_items s); [congruence | discriminate].
Qed.

(** X9.  The two percentages of lines 67-68 divide the green and the red
    count by the number of all tickers, those with a null yearly return
    included, so they add up to 100 only when no yearly return is null;
    without any ticker both are null. *)
Theorem key_metric_percentages (raw : DataFrame) :
  let df := preprocess raw in
  let n := List.length (group_keys (col_ticker df)) in
  (n = 0%nat -> pct_positive df = NaN /\ pct_negative df = NaN) /\
  (n <> 0%nat ->
   pct_positive df =f= Num (Qnat (green_stocks df) / Qnat n * 100) /\
   pct_negative df =f= Num (Qnat (red_stocks df) / Qnat n * 100) /\
   fadd (pct_positive df) (pct_negative df)
   =f= Num (Qnat (green_stocks df + red_stocks df) / Qnat n * 100)).
Proof.
  intros df n.
  assert (Hlen : List.length (s_items (df_yearly df)) = n)
    by apply df_yearly_length.
  split.
  - intros Hn. rewrite Hn in Hlen.
    unfold pct_positive, pct_negative, share_where.
    destruct (s_items (df_yearly df)); [split; reflexivity | discriminate].
  - intros Hn.
    assert (Hne : s_items (df_yearly df) <> []).
    { intros E. rewrite E in Hlen. simpl in Hlen. congruence. }
    destruct (key_metric_counts_aux df) as [Hg Hr].
    assert (Hp : pct_positive df
                 =f= Num (Qnat (green_stocks df) / Qnat n * 100)).
    { unfold pct_positive. rewrite (share_where_value _ _ Hne).
      rewrite Hlen, <- Hg. reflexivity. }
    assert (Hq : pct_negative df
                 =f= Num (Qnat (red_stocks df) / Qnat n * 100)).
    { unfold pct_negative. rewrite (share_where_value _ _ Hne).
      rewrite Hlen, <- Hr. reflexivity. }
    split; [exact Hp|]. split; [exact Hq|].
    rewrite Hp, Hq. simpl. unfold Qnat.
    rewrite Nat2Z.inj_add, inject_Z_plus. field.
    unfold Qeq, inject_Z. simpl. lia.
Qed.

Lemma key_metric_percentages_witness :
  fadd (pct_positive (preprocess scenario_A_B))
       (pct_negative (preprocess scenario_A_B))
  =f= Num (Qnat (green_stocks (preprocess scenario_A_B)
                 + red_stocks (preprocess scenario_A_B))
           / Qnat (List.length
                     (group_keys (col_ticker (preprocess scenario_A_B))))
           * 100).
Proof.
  refine (proj2 (proj2 (proj2 (key_metric_percentages scenario_A_B) _))).
  vm_compute. discriminate.
Defined.






(** ** Rankings (lines 77-78, 104-105, 141-144) *)

Lemma sort_values_asc_perm {A : Type} (key : A -> fval) (l : list A) :
  Permutation l (sort_values_asc key l).
Proof.
  unfold sort_values_asc.
  rewrite <- sort_by_perm.
  apply (filter_partition_perm (fun a => isna (key a))).
Qed.

Lemma sort_values_asc_sorted {A : Type} (key : A -> fval) (l : list A) :
  StronglySorted (fun a b => asc_nan_last (key a) (key b))
    (sort_values_asc key l).
Proof.
  unfold sort_values_asc. apply StronglySorted_app.
  - apply StronglySorted_weaken
      with (R := fun a b => fleb (key a) (key b) = true).
    { intros a b H. right. exact H. }
    apply (sort_by_sorted _ (fun a => isna (key a) = false)).
    + intros x y Hx Hy. apply fleb_total; assumption.
    + intros x y z Hxy Hyz. apply (fleb_trans _ (key y)); assumption.
    + apply Forall_forall. intros x Hx. apply filter_In in Hx.
      apply negb_true_iff, Hx.
  - apply StronglySorted_all. intros a b Hb. left.
    apply filter_In in Hb. apply Hb.
  - intros a b _ Hb. left. apply filter_In in Hb. apply Hb.
Qed.

Lemma StronglySorted_app_inv {A : Type} (R : A -> A -> Prop) (l m : list A)
    (x y : A) :
  StronglySorted R (l ++ m) -> In x l -> In y m -> R x y.
Proof.
  induction l as [|a l IH]; simpl; [contradiction|].
  intros H [->|Hx] Hy; inversion H as [|? ? Hs Ha]; subst.
  - rewrite Forall_forall in Ha. apply Ha. apply in_or_app. auto.
  - apply IH; assumption.
Qed.

(** In a sorted list, an element among the first [i] stands before any
    element after the first [j], for [i <= j]. *)
Lemma sorted_firstn_skipn {A : Type} (R : A -> A -> Prop) (l : list A)
    (i j : nat) (x y : A) :
  StronglySorted R l -> (i <= j)%nat ->
  In x (firstn i l) -> In y (skipn j l) -> R x y.
Proof.
  intros Hs Hij Hx Hy.
  rewrite <- (firstn_skipn j l) in Hs.
  apply (StronglySorted_app_inv R _ _ x y Hs); [|exact Hy].
  replace i with (Nat.min i j) in Hx by lia.
  rewrite <- firstn_firstn in Hx. apply firstn_In in Hx. exact Hx.
Qed.

(** A ranking cut after [n] rows: a row left out stands after every row
    kept. *)
Lemma head_dominates {B : Type} (R : B -> B -> Prop) (n : nat)
    (ranked : list (string * B)) (g h : string) (v w : B) :
  StronglySorted (fun a b => R (snd a) (snd b)) ranked ->
  In (g, v) (firstn n ranked) -> In (h, w) ranked ->
  ~ In h (map fst (firstn n ranked)) ->
  R v w.
Proof.
  intros Hs Hg Hh Hout.
  rewrite <- (firstn_skipn n ranked) in Hh. apply in_app_or in Hh.
  destruct Hh as [Hh|Hh].
  - exfalso. apply Hout. apply (in_map fst) in Hh. exact Hh.
  - apply (sorted_firstn_skipn _ ranked n n (g, v) (h, w) Hs (le_n n) Hg Hh).
Qed.

Lemma df_yearly_keys_NoDup (df : DataFrame) :
  NoDup (map fst (s_items (df_yearly df))).
Proof.
  rewrite df_yearly_items, map_map. cbn [fst]. rewrite map_id.
  apply group_keys_NoDup.
Qed.

(** X11.  The gainers table holds the 10 tickers with the largest yearly
    return, or all tickers when there are fewer, largest first: no ticker
    left out has a larger yearly return than a listed one.  The losers table
    does the same with the smallest.  A null yearly return ranks last in
    both tables, so a ticker with a null yearly return is listed as a gainer
    and as a loser when the data has at most 10 tickers. *)
Theorem top10_bottom10_spec (raw : DataFrame) :
  let df := preprocess raw in
  let items := s_items (df_yearly df) in
  List.length (top10 df) = Nat.min 10 (List.length items) /\
  List.length (bottom10 df) = Nat.min 10 (List.length items) /\
  incl (top10 df) items /\ incl (bottom10 df) items /\
  StronglySorted desc_nan_last (map snd (top10 df)) /\
  StronglySorted asc_nan_last (map snd (bottom10 df)) /\
  (forall g v h w, In (g, v) (top10 df) -> In (h, w) items ->
     ~ In h (map fst (top10 df)) -> desc_nan_last v w) /\
  (forall g v h w, In (g, v) (bottom10 df) -> In (h, w) items ->
     ~ In h (map fst (bottom10 df)) -> asc_nan_last v w) /\
  ((List.length items <= 10)%nat ->
   Permutation (top10 df) items /\ Permutation (bottom10 df) items).
Proof.
  intros df items. unfold top10, bottom10, head. fold items.
  pose proof (sort_values_desc_perm snd items) as Pd.
  pose proof (sort_values_asc_perm snd items) as Pa.
  pose proof (sort_values_desc_sorted snd items) as Sd.
  pose proof (sort_values_asc_sorted snd items) as Sa.
  split; [rewrite length_firstn, <- (Permutation_length Pd); reflexivity|].
  split; [rewrite length_firstn, <- (Permutation_length Pa); reflexivity|].
  split.
  { intros x Hx. apply firstn_In in Hx.
    apply (Permutation_in _ (Permutation_sym Pd)). exact Hx. }
  split.
  { intros x Hx. apply firstn_In in Hx.
    apply (Permutation_in _ (Permutation_sym Pa)). exact Hx. }
  split.
  { apply StronglySorted_map, firstn_StronglySorted. exact Sd. }
  split.
  { apply StronglySorted_map, firstn_StronglySorted. exact Sa. }
  split.
  { intros g v h w Hg Hh Hout.
    apply (head_dominates desc_nan_last 10 _ g h v w Sd Hg); [|exact Hout].
    apply (Permutation_in _ Pd). exact Hh. }
  split.
  { intros g v h w Hg Hh Hout.
    apply (head_dominates asc_nan_last 10 _ g h v w Sa Hg); [|exact Hout].
    apply (Permutation_in _ Pa). exact Hh. }
  intros Hlen. split.
  - rewrite firstn_all2; [symmetry; exact Pd|].
    rewrite <- (Permutation_length Pd). exact Hlen.
  - rewrite firstn_all2; [symmetry; exact Pa|].
    rewrite <- (Permutation_length Pa). exact Hlen.
Qed.

Lemma top10_bottom10_spec_witness :
  exists v w,
    In ("l", v) (top10 (preprocess twelve_tickers)) /\
    In ("a", w) (s_items (df_yearly (preprocess twelve_tickers))) /\
    desc_nan_last v w.
Proof.
  eexists. eexists.
  assert (Hl : In ("l", Num ((inject_Z 21 - 10) / 10))
                 (top10 (preprocess twelve_tickers)))
    by (vm_compute; left; reflexivity).
  assert (Ha : In ("a", Num ((inject_Z 10 - 10) / 10))
                 (s_items (df_yearly (preprocess twelve_tickers))))
    by (vm_compute; left; reflexivity).
  split; [exact Hl|]. split; [exact Ha|].
  refine (proj1 (proj2 (proj2 (proj2 (proj2 (proj2 (proj2
            (top10_bottom10_spec twelve_tickers)))))))
            "l" _ "a" _ Hl Ha _).
  vm_compute. intuition discriminate.
Defined.

Lemma isin_In (t : string) (l : list string) : isin t l = true <-> In t l.
Proof.
  unfold isin. rewrite existsb_exists. split.
  - intros [x [H E]]. apply String.eqb_eq in E. subst. exact H.
  - intros H. exists t. split; [exact H | apply String.eqb_refl].
Qed.

Lemma filter_all {A : Type} (p : A -> bool) (l : list A) :
  (forall x, In x l -> p x = true) -> filter p l = l.
Proof.
  induction l as [|x r IH]; intros H; simpl; [reflexivity|].
  rewrite (H x) by (left; reflexivity). f_equal.
  apply IH. intros y Hy. apply H. right. exact Hy.
Qed.

Lemma filter_filter_implied {A : Type} (p q : A -> bool) (l : list A) :
  (forall x, p x = true -> q x = true) ->
  filter p (filter q l) = filter p l.
Proof.
  intros H. induction l as [|x r IH]; simpl; [reflexivity|].
  destruct (q x) eqn:Eq; simpl.
  - destruct (p x); [f_equal|]; exact IH.
  - destruct (p x) eqn:Ep; [|exact IH].
    rewrite (H x Ep) in Eq. discriminate.
Qed.

(** X12.  The cumulative-performance chart keeps at most 5 tickers, each a
    ticker of the data, and for each of them every one of its records, in
    frame order; no record of another ticker is kept.  With at most 5
    tickers in the data the chart shows the whole frame. *)
Theorem df_top5_spec (raw : DataFrame) :
  let df := preprocess raw in
  (List.length (top5 df) <= 5)%nat /\
  NoDup (top5 df) /\
  (forall g, In g (top5 df) -> In g (col_ticker df)) /\
  (forall g, In g (top5 df) -> records_of g (df_top5 df) = records_of g df) /\
  (forall r, In r (df_top5 df) -> In r df /\ In (ticker r) (top5 df)) /\
  ((List.length (group_keys (col_ticker df)) <= 5)%nat -> df_top5 df = df).
Proof.
  intros df.
  set (ranking := sort_values_desc snd
                    (groupby_agg last_valid (col_ticker df)
                       (col_cumulative_return df))).
  assert (Hkeys : Permutation (group_keys (col_ticker df)) (map fst ranking)).
  { unfold ranking. rewrite <- sort_values_desc_perm.
    rewrite groupby_agg_keys. reflexivity. }
  assert (Htop : top5 df = firstn 5 (map fst ranking)).
  { unfold top5, head. fold ranking. symmetry. apply firstn_map. }
  split; [rewrite Htop; apply firstn_le_length|].
  split.
  { rewrite Htop. apply firstn_NoDup.
    apply (Permutation_NoDup Hkeys). apply group_keys_NoDup. }
  split.
  { intros g Hg. rewrite Htop in Hg. apply firstn_In in Hg.
    apply group_keys_In.
    apply (Permutation_in _ (Permutation_sym Hkeys)). exact Hg. }
  split.
  { intros g Hg. unfold records_of, df_top5.
    apply filter_filter_implied. intros r E.
    apply String.eqb_eq in E. apply isin_In. rewrite E. exact Hg. }
  split.
  { intros r Hr. unfold df_top5 in Hr. apply filter_In in Hr.
    destruct Hr as [Hr E]. split; [exact Hr|]. apply isin_In. exact E. }
  intros Hlen. unfold df_top5. apply filter_all. intros r Hr.
  apply isin_In. rewrite Htop, firstn_all2.
  - apply (Permutation_in _ Hkeys). apply group_keys_In.
    unfold col_ticker. apply in_map. exact Hr.
  - rewrite <- (Permutation_length Hkeys). exact Hlen.
Qed.

Lemma df_top5_spec_witness :
  df_top5 (preprocess three_movers) = preprocess three_movers.
Proof.
  apply (proj2 (proj2 (proj2 (proj2 (proj2 (df_top5_spec three_movers)))))).
  vm_compute. lia.
Defined.

Lemma tail_all {A : Type} (n : nat) (l : list A) :
  (List.length l <= n)%nat -> tail n l = l.
Proof.
  intros H. unfold tail. replace (List.length l - n)%nat with 0%nat by lia.
  reflexivity.
Qed.

(** X13.  The two monthly charts show the first 5 and the last 5 rows of
    the month's table.  With at most 5 tickers in the month both charts
    show the same rows, all of them; with 10 or more, no gainer has a
    smaller monthly return than a loser. *)
Theorem monthly_charts_spec (raw : DataFrame) (m : Month) :
  let df := preprocess raw in
  let rows := map (fun r => (m_ticker r, m_monthly_return r))
                (monthly_return df m) in
  let n := List.length rows in
  List.length (monthly_gainers df m) = Nat.min 5 n /\
  List.length (monthly_losers df m) = Nat.min 5 n /\
  ((n <= 5)%nat ->
   monthly_gainers df m = rows /\ monthly_losers df m = rows) /\
  ((10 <= n)%nat ->
   forall x y, In x (monthly_gainers df m) -> In y (monthly_losers df m) ->
               desc_nan_last (snd x) (snd y)).
Proof.
  intros df rows n. unfold monthly_gainers, monthly_losers, head, tail.
  fold rows. fold n.
  split; [apply length_firstn|].
  split; [rewrite length_skipn; lia|].
  split.
  - intros Hn. split; [apply firstn_all2; exact Hn|].
    replace (n - 5)%nat with 0%nat by lia. reflexivity.
  - intros Hn x y Hx Hy.
    apply (sorted_firstn_skipn (fun a b => desc_nan_last (snd a) (snd b))
             rows 5 (n - 5) x y); [|lia|exact Hx|exact Hy].
    unfold rows.
    assert (Hs := sort_values_desc_sorted m_monthly_return
                    (monthly_agg df m)).
    fold (monthly_return df m) in Hs.
    clear -Hs. induction Hs as [|a l Hs IH Ha]; simpl; constructor; auto.
    apply Forall_forall. intros b Hb. apply in_map_iff in Hb.
    destruct Hb as [c [<- Hc]]. rewrite Forall_forall in Ha.
    simpl. apply Ha. exact Hc.
Qed.

Lemma monthly_charts_spec_witness :
  monthly_gainers (preprocess three_movers) (2024, 1)%Z
  = monthly_losers (preprocess three_movers) (2024, 1)%Z.
Proof.
  destruct (proj1 (proj2 (proj2
              (monthly_charts_spec three_movers (2024, 1)%Z)))) as [Hg Hl].
  - vm_compute. lia.
  - rewrite Hg, Hl. reflexivity.
Defined.

(** ** The month selector (lines 131-148) *)

Lemma unique_months_In (l : list Month) (x : Month) :
  In x (unique_months l) <-> In x l.
Proof.
  induction l as [|y r IH]; simpl; [tauto|].
  rewrite filter_In, IH, negb_true_iff.
  destruct (month_eqb x y) eqn:E.
  - apply month_eqb_eq in E. subst. split; [auto|]. intros _. auto.
  - split; [tauto|]. intros [H|H]; [|auto].
    subst. assert (month_eqb x x = true) by (apply month_eqb_eq; reflexivity).
    congruence.
Qed.

Lemma unique_months_NoDup (l : list Month) : NoDup (unique_months l).
Proof.
  induction l as [|y r IH]; simpl; constructor.
  - rewrite filter_In. intros [_ H].
    assert (month_eqb y y = true) by (apply month_eqb_eq; reflexivity).
    rewrite H0 in H. discriminate.
  - apply NoDup_filter. exact IH.
Qed.

Lemma month_leb_total (a b : Month) :
  month_leb a b = true \/ month_leb b a = true.
Proof.
  unfold month_leb.
  repeat match goal with
         | |- context [(?x <? ?y)%Z] => destruct (Z.ltb_spec x y)
         | |- context [(?x <=? ?y)%Z] => destruct (Z.leb_spec x y)
         end; auto; lia.
Qed.

Lemma month_leb_trans (a b c : Month) :
  month_leb a b = true -> month_leb b c = true -> month_leb a c = true.
Proof.
  unfold month_leb.
  repeat match goal with
         | |- context [(?x <? ?y)%Z] => destruct (Z.ltb_spec x y)
         | |- context [(?x <=? ?y)%Z] => destruct (Z.leb_spec x y)
         end; auto; try discriminate; try lia.
Qed.

Lemma months_In (df : DataFrame) (m : Month) :
  In m (months df) <-> exists r, In r df /\ to_period_M (date r) = m.
Proof.
  unfold months.
  assert (P := sort_by_perm month_leb (unique_months (col_month df))).
  split.
  - intros H. apply (Permutation_in _ (Permutation_sym P)) in H.
    apply (proj1 (unique_months_In _ _)) in H. unfold col_month in H.
    apply in_map_iff in H. destruct H as [r [E H]]. eauto.
  - intros [r [H E]].
    apply (Permutation_in _ P). apply (proj2 (unique_months_In _ _)).
    unfold col_month. apply in_map_iff. eauto.
Qed.

Lemma monthly_return_empty (df : DataFrame) (m : Month) :
  monthly_return df m = [] <-> monthly df m = [].
Proof.
  assert (P := sort_values_desc_perm m_monthly_return (monthly_agg df m)).
  fold (monthly_return df m) in P.
  assert (K := monthly_agg_tickers df m).
  split.
  - intros E. rewrite E in P. apply Permutation_sym, Permutation_nil in P.
    rewrite P in K. simpl in K.
    destruct (monthly df m) as [|r rs]; [reflexivity|].
    exfalso. assert (H : In (ticker r) (group_keys (col_ticker (r :: rs)))).
    { apply group_keys_In. left. reflexivity. }
    rewrite <- K in H. exact H.
  - intros E. rewrite E in K.
    destruct (monthly_agg df m) as [|a l]; [|discriminate].
    apply Permutation_nil in P. exact P.
Qed.

(** X14.  The selector offers each month of the data once, in ascending
    order.  For a month it offers, the monthly table and the monthly export
    have at least one row; for any other month they have none, and the
    export is its header line alone. *)
Theorem month_selector_spec (raw : DataFrame) :
  let df := preprocess raw in
  NoDup (months df) /\
  StronglySorted (fun a b => month_leb a b = true) (months df) /\
  (forall m, In m (months df) <->
             exists r, In r df /\ to_period_M (date r) = m) /\
  (forall m, In m (months df) ->
     monthly_return df m <> [] /\ csv_rows (csv_month df m) <> []) /\
  (forall m, ~ In m (months df) ->
     monthly_return df m = [] /\
     csv_month df m
     = mkCsv ["ticker"; "first"; "last"; "monthly_return"] []).
Proof.
  intros df.
  split.
  { apply (Permutation_NoDup (sort_by_perm month_leb _)).
    apply unique_months_NoDup. }
  split.
  { apply (sort_by_sorted month_leb (fun _ => True)).
    - intros x y _ _. apply month_leb_total.
    - intros x y z. apply month_leb_trans.
    - apply Forall_forall. auto. }
  split; [apply months_In|].
  split.
  - intros m Hm. apply months_In in Hm. destruct Hm as [r [Hr E]].
    assert (Hne : monthly_return df m <> []).
    { rewrite monthly_return_empty. intros E0.
      assert (H : In r (monthly df m)).
      { unfold monthly. apply filter_In. split; [exact Hr|].
        apply month_eqb_eq. exact E. }
      rewrite E0 in H. exact H. }
    split; [exact Hne|].
    unfold csv_month, to_csv, monthly_reset_index. cbn [csv_rows t_rows].
    destruct (monthly_return df m); [congruence | discriminate].
  - intros m Hm.
    assert (He : monthly_return df m = []).
    { apply monthly_return_empty. unfold monthly.
      destruct (filter _ df) as [|r rs] eqn:E; [reflexivity|].
      exfalso. apply Hm. apply months_In. exists r.
      assert (H : In r (r :: rs)) by (left; reflexivity).
      rewrite <- E in H. apply filter_In in H. destruct H as [H1 H2].
      apply month_eqb_eq in H2. auto. }
    split; [exact He|].
    unfold csv_month. rewrite He. reflexivity.
Qed.

Lemma month_selector_spec_witness :
  monthly_return (preprocess gapped) (2024, 3)%Z <> [] /\
  monthly_return (preprocess gapped) (2024, 2)%Z = [].
Proof.
  split.
  - apply (proj1 (proj2 (proj2 (proj2 (month_selector_spec gapped))))
             (2024, 3)%Z).
    right. left. reflexivity.
  - apply (proj2 (proj2 (proj2 (proj2 (month_selector_spec gapped))))
             (2024, 2)%Z).
    vm_compute. intuition discriminate.
Defined.

(** ** Ticker order *)

Lemma string_compare_trans (s1 s2 s3 : string) :
  String.compare s1 s2 <> Gt -> String.compare s2 s3 <> Gt ->
  String.compare s1 s3 <> Gt.
Proof.
  revert s2 s3. induction s1 as [|a s1 IH]; intros [|b s2] [|c s3]; simpl;
    try congruence.
  unfold Ascii.compare.
  destruct (N.compare_spec (N_of_ascii a) (N_of_ascii b)) as [E1|L1|G1];
    destruct (N.compare_spec (N_of_ascii b) (N_of_ascii c)) as [E2|L2|G2];
    destruct (N.compare_spec (N_of_ascii a) (N_of_ascii c)) as [E3|L3|G3];
    try congruence; try lia.
  apply IH.
Qed.

Lemma string_leb_trans (s1 s2 s3 : string) :
  String.leb s1 s2 = true -> String.leb s2 s3 = true ->
  String.leb s1 s3 = true.
Proof.
  unfold String.leb. intros H1 H2.
  pose proof (string_compare_trans s1 s2 s3) as H.
  destruct (String.compare s1 s2); try discriminate;
    destruct (String.compare s2 s3); try discriminate;
    destruct (String.compare s1 s3); try reflexivity;
    exfalso; apply H; congruence.
Qed.

Lemma group_keys_sorted (keys : list string) :
  StronglySorted (fun a b => String.leb a b = true) (group_keys keys).
Proof.
  apply (sort_by_sorted String.leb (fun _ => True)).
  - intros x y _ _. apply String.leb_total.
  - apply string_leb_trans.
  - apply Forall_forall. auto.
Qed.

Lemma map_nth_seq {A : Type} (l : list A) (dflt : A) :
  map (fun i => nth i l dflt) (seq 0 (List.length l)) = l.
Proof.
  induction l as [|x r IH]; [reflexivity|].
  cbn [List.length seq map nth]. f_equal.
  rewrite <- seq_shift, map_map. exact IH.
Qed.

Lemma returns_columns (df : DataFrame) :
  f_columns (returns df) = group_keys (col_ticker df).
Proof. reflexivity. Qed.

(** X15.  Every per-ticker table lists each ticker of the data once, in
    ascending order of the name: the yearly returns and their export, the
    columns of the pivot and the rows and columns of the correlation
    matrix. *)
Theorem ticker_order_spec (raw : DataFrame) :
  let df := preprocess raw in
  let ks := group_keys (col_ticker df) in
  StronglySorted (fun a b => String.leb a b = true) ks /\
  NoDup ks /\
  (forall g, In g ks <-> exists r, In r df /\ ticker r = g) /\
  map fst (s_items (df_yearly df)) = ks /\
  csv_column "ticker" (csv_yearly df) = Some (map CStr ks) /\
  f_columns (pivot df) = ks /\
  map fst (corr df) = ks /\
  Forall (fun row => map fst (snd row) = ks) (corr df).
Proof.
  intros df ks.
  split; [apply group_keys_sorted|].
  split; [apply group_keys_NoDup|].
  split.
  { intros g. unfold ks. rewrite group_keys_In. unfold col_ticker.
    rewrite in_map_iff. split; intros [r [H1 H2]]; eauto. }
  split.
  { rewrite df_yearly_items, map_map. cbn [fst]. apply map_id. }
  split.
  { unfold csv_column.
    change (csv_header (csv_yearly df)) with ["ticker"; "close"].
    cbn [index_of String.eqb Ascii.eqb Bool.eqb].
    unfold csv_yearly, to_csv, rename_column, series_reset_index.
    cbn [csv_rows t_rows]. rewrite df_yearly_items, !map_map. reflexivity. }
  split; [reflexivity|].
  unfold corr, frame_corr. rewrite returns_columns. fold ks.
  split.
  - rewrite map_map. cbn [fst]. apply map_nth_seq.
  - apply Forall_forall. intros row H. apply in_map_iff in H.
    destruct H as [i [<- _]]. cbn [snd]. rewrite map_map. cbn [fst].
    apply map_nth_seq.
Qed.

Lemma ticker_order_spec_witness :
  In "b" (group_keys (col_ticker (preprocess scenario_A_B))).
Proof.
  apply (proj1 (proj2 (proj2 (ticker_order_spec scenario_A_B))) "b").
  exists (mkPrice "b" (ymd 2024 1 1) 5). split; [|reflexivity].
  right. left. reflexivity.
Defined.

(** ** The shape of the correlation matrix *)

Lemma pearson_nil : pearson [] [] = SNaN.
Proof. reflexivity. Qed.

Lemma frame_column_no_rows (f : Frame) (j : nat) :
  f_rows f = [] -> frame_column f j = [].
Proof. unfold frame_column. intros ->. reflexivity. Qed.

Lemma returns_single_date (df : DataFrame) :
  (List.length (unique_dates (map date df)) <= 1)%nat ->
  group_keys (col_ticker df) <> [] ->
  f_rows (returns df) = [].
Proof.
  intros Hd Hk. unfold returns, frame_dropna, frame_pct_change, pivot,
    frame_ffill, pivot_table. cbn [f_rows f_columns].
  assert (P := sort_by_perm date_leb (unique_dates (map date df))).
  apply Permutation_length in P. rewrite P in Hd.
  destruct (sort_by date_leb (unique_dates (map date df))) as [|dt [|dt' l]];
    [reflexivity | | simpl in Hd; lia].
  destruct (group_keys (col_ticker df)) as [|k ks]; [congruence|].
  cbn [map List.length repeat ffill_rows zip_with pct_change_rows filter
       snd forallb].
  destruct (isna (pivot_cell df dt k)); cbn [isna fdiv fsub negb andb];
    try reflexivity.
  destruct (pivot_cell df dt k); reflexivity.
Qed.

(** X16.  The correlation matrix has one row and one column for each
    ticker, whatever rows line 121 dropped.  When all the records share one
    date no return row is left and every entry of the matrix is null. *)
Theorem corr_shape (raw : DataFrame) :
  let df := preprocess raw in
  let k := List.length (group_keys (col_ticker df)) in
  List.length (corr df) = k /\
  Forall (fun row => List.length (snd row) = k) (corr df) /\
  (forall i j, corr_at df i j <> None <-> (i < k)%nat /\ (j < k)%nat) /\
  ((List.length (unique_dates (map date df)) <= 1)%nat ->
   forall i j e, corr_at df i j = Some e -> e = SNaN).
Proof.
  intros df k.
  split.
  { unfold corr, frame_corr. rewrite length_map, length_seq. reflexivity. }
  split.
  { apply Forall_forall. intros row H. unfold corr, frame_corr in H.
    apply in_map_iff in H. destruct H as [i [<- _]]. cbn [snd].
    rewrite length_map, length_seq. reflexivity. }
  split.
  { intros i j. split.
    - intros H. destruct (corr_at df i j) as [e|] eqn:E; [|congruence].
      apply corr_at_entry in E. rewrite returns_columns in E. tauto.
    - intros [Hi Hj] E.
      assert (H : corr_at df i j = Some (corr_entry (returns df) i j)).
      { apply corr_at_entry. rewrite returns_columns. auto. }
      congruence. }
  intros Hd i j e H. apply corr_at_entry in H.
  destruct H as [Hi [_ ->]]. rewrite returns_columns in Hi.
  unfold corr_entry.
  rewrite !frame_column_no_rows; [reflexivity | |];
    apply returns_single_date; try exact Hd;
    intros E; rewrite E in Hi; simpl in Hi; lia.
Qed.

Lemma corr_shape_witness :
  corr_at (preprocess one_day) 0 1 = Some SNaN.
Proof.
  destruct (corr_at (preprocess one_day) 0 1) as [e|] eqn:E;
    [|vm_compute in E; discriminate].
  f_equal.
  refine (proj2 (proj2 (proj2 (corr_shape one_day))) _ 0%nat 1%nat e E).
  vm_compute. lia.
Defined.

(** ** The rows of the return frame (lines 120-121) *)

Lemma date_eqb_eq (a b : Date) : date_eqb a b = true <-> a = b.
Proof.
  destruct a as [y m dd], b as [y' m' dd']. unfold date_eqb. simpl.
  rewrite !andb_true_iff, !Z.eqb_eq. split.
  - intros [[-> ->] ->]. reflexivity.
  - intros E. injection E as -> -> ->. auto.
Qed.

Lemma unique_dates_In (l : list Date) (x : Date) :
  In x (unique_dates l) <-> In x l.
Proof.
  induction l as [|y r IH]; simpl; [tauto|].
  rewrite filter_In, IH, negb_true_iff.
  destruct (date_eqb x y) eqn:E.
  - apply date_eqb_eq in E. subst. split; [auto|]. intros _. auto.
  - split; [tauto|]. intros [H|H]; [|auto].
    subst. assert (date_eqb x x = true) by (apply date_eqb_eq; reflexivity).
    congruence.
Qed.

Lemma unique_dates_NoDup (l : list Date) : NoDup (unique_dates l).
Proof.
  induction l as [|y r IH]; simpl; constructor.
  - rewrite filter_In. intros [_ H].
    assert (E : date_eqb y y = true) by (apply date_eqb_eq; reflexivity).
    rewrite E in H. discriminate.
  - apply NoDup_filter. exact IH.
Qed.

Lemma StronglySorted_nth_error {A : Type} (R : A -> A -> Prop) (l : list A)
    (s t : nat) (a b : A) :
  StronglySorted R l -> (s < t)%nat ->
  nth_error l s = Some a -> nth_error l t = Some b -> R a b.
Proof.
  intros H. revert s t. induction H as [|x r Hs IH Hx]; intros s t Hst Ha Hb.
  - destruct s; discriminate.
  - destruct t as [|t]; [lia|]. destruct s as [|s]; simpl in *.
    + injection Ha as <-. rewrite Forall_forall in Hx. apply Hx.
      apply (nth_error_In _ _ Hb).
    + apply (IH s t); [lia | assumption | assumption].
Qed.

Lemma nth_repeat_NaN (j k : nat) : nth j (repeat NaN k) NaN = NaN.
Proof.
  revert j. induction k as [|k IH]; intros [|j]; simpl; auto.
Qed.

Lemma nth_zip_fill (prev r : list fval) (j : nat) :
  isna (nth j (zip_with (fun p x => if isna x then p else x) prev r) NaN)
  = false ->
  isna (nth j r NaN) = false \/ isna (nth j prev NaN) = false.
Proof.
  revert r j. induction prev as [|p prev IH]; intros [|x r] [|j]; simpl;
    try discriminate.
  - destruct (isna x) eqn:E; auto.
  - apply IH.
Qed.

Lemma nth_zip_pct (r prev : list fval) (j : nat) :
  isna (nth j (zip_with (fun x p => fsub (fdiv x p) (Num 1)) r prev) NaN)
  = false ->
  isna (nth j r NaN) = false /\ isna (nth j prev NaN) = false.
Proof.
  revert prev j. induction r as [|x r IH]; intros [|p prev] [|j]; simpl;
    try discriminate.
  - destruct x, p; simpl; auto; discriminate.
  - apply IH.
Qed.

Lemma ffill_rows_dates (prev : list fval) (rows : list (Date * list fval)) :
  map fst (ffill_rows prev rows) = map fst rows.
Proof.
  revert prev. induction rows as [|[dt r] rs IH]; intros prev; simpl;
    [reflexivity|]. rewrite IH. reflexivity.
Qed.

Lemma pct_change_rows_dates (prev : list fval)
    (rows : list (Date * list fval)) :
  map fst (pct_change_rows prev rows) = map fst rows.
Proof.
  revert prev. induction rows as [|[dt r] rs IH]; intros prev; simpl;
    [reflexivity|]. rewrite IH. reflexivity.
Qed.

Lemma zip_with_length_same {A B C : Type} (f : A -> B -> C) (l : list A)
    (m : list B) :
  List.length l = List.length m ->
  List.length (zip_with f l m) = List.length m.
Proof.
  intros H. rewrite zip_with_length by exact H. exact H.
Qed.

Lemma ffill_rows_widths (k : nat) (prev : list fval)
    (rows : list (Date * list fval)) :
  List.length prev = k ->
  Forall (fun row => List.length (snd row) = k) rows ->
  Forall (fun row => List.length (snd row) = k) (ffill_rows prev rows).
Proof.
  intros Hp Hr. revert prev Hp.
  induction Hr as [|[dt r] rs Hrow Hrs IH]; intros prev Hp; simpl;
    constructor.
  - cbn [snd] in *. rewrite zip_with_length_same; congruence.
  - apply IH. cbn [snd] in Hrow. rewrite zip_with_length_same; congruence.
Qed.

Lemma pct_change_rows_widths (k : nat) (prev : list fval)
    (rows : list (Date * list fval)) :
  List.length prev = k ->
  Forall (fun row => List.length (snd row) = k) rows ->
  Forall (fun row => List.length (snd row) = k) (pct_change_rows prev rows).
Proof.
  intros Hp Hr. revert prev Hp.
  induction Hr as [|[dt r] rs Hrow Hrs IH]; intros prev Hp; simpl;
    constructor.
  - cbn [snd] in *. rewrite zip_with_length; congruence.
  - apply IH. exact Hrow.
Qed.

(** A cell that a padded frame fills was filled from the row itself or from
    a row above it. *)
Lemma ffill_rows_source (prev : list fval) (rows : list (Date * list fval))
    (t j : nat) (dt : Date) (r : list fval) :
  nth_error (ffill_rows prev rows) t = Some (dt, r) ->
  isna (nth j r NaN) = false ->
  isna (nth j prev NaN) = false \/
  exists s dt' r', (s <= t)%nat /\ nth_error rows s = Some (dt', r') /\
                   isna (nth j r' NaN) = false.
Proof.
  revert prev t. induction rows as [|[d0 r0] rs IH]; intros prev t H Hj.
  - destruct t; discriminate.
  - cbn [ffill_rows] in H. destruct t as [|t]; cbn [nth_error] in H.
    + injection H as <- <-. apply nth_zip_fill in Hj.
      destruct Hj as [Hj|Hj]; [right|left; exact Hj].
      exists 0%nat, d0, r0. auto.
    + destruct (IH _ _ H Hj) as [Hp|[s [dt' [r' [Hs [Hn Hr']]]]]].
      * apply nth_zip_fill in Hp. destruct Hp as [Hp|Hp]; [right|left; exact Hp].
        exists 0%nat, d0, r0. split; [lia|]. auto.
      * right. exists (S s), dt', r'. split; [lia|]. auto.
Qed.

(** A cell of the percent-change frame that is not null has a cell that is
    not null in the row above it. *)
Lemma pct_change_rows_source (prev : list fval)
    (rows : list (Date * list fval)) (t j : nat) (dt : Date)
    (r : list fval) :
  nth_error (pct_change_rows prev rows) t = Some (dt, r) ->
  isna (nth j r NaN) = false ->
  match t with
  | O => isna (nth j prev NaN) = false
  | S t' => exists dt' r', nth_error rows t' = Some (dt', r') /\
                           isna (nth j r' NaN) = false
  end.
Proof.
  revert prev t. induction rows as [|[d0 r0] rs IH]; intros prev t H Hj.
  - destruct t; discriminate.
  - cbn [pct_change_rows] in H. destruct t as [|t]; cbn [nth_error] in H.
    + injection H as <- <-. apply nth_zip_pct in Hj. apply Hj.
    + specialize (IH _ _ H Hj). destruct t as [|t].
      * exists d0, r0. auto.
      * exact IH.
Qed.

Lemma pivot_cell_record (df : DataFrame) (dt : Date) (g : string) :
  isna (pivot_cell df dt g) = false ->
  exists r, In r df /\ date r = dt /\ ticker r = g.
Proof.
  unfold pivot_cell.
  destruct (filter (fun r => date_eqb (date r) dt && String.eqb (ticker r) g)
              df) as [|r rs] eqn:E; [discriminate|].
  intros _. exists r.
  assert (H : In r (r :: rs)) by (left; reflexivity).
  rewrite <- E in H. apply filter_In in H. destruct H as [H1 H2].
  apply andb_true_iff in H2. destruct H2 as [H2 H3].
  apply date_eqb_eq in H2. apply String.eqb_eq in H3. auto.
Qed.

Lemma forallb_nth_notna (row : list fval) (j : nat) :
  forallb (fun v => negb (isna v)) row = true ->
  (j < List.length row)%nat -> isna (nth j row NaN) = false.
Proof.
  intros H Hj. rewrite forallb_forall in H.
  apply negb_true_iff. apply H. apply nth_In. exact Hj.
Qed.

Lemma returns_rows_unfold (df : DataFrame) :
  let k := List.length (group_keys (col_ticker df)) in
  f_rows (returns df)
  = filter (fun row => forallb (fun v => negb (isna v)) (snd row))
      (pct_change_rows (repeat NaN k)
         (ffill_rows (repeat NaN k) (f_rows (pivot_table df)))).
Proof.
  unfold returns, frame_dropna, frame_pct_change, pivot, frame_ffill.
  cbn [f_rows f_columns]. rewrite ffill_rows_idem. reflexivity.
Qed.

Lemma pivot_dates_sorted (df : DataFrame) :
  let dates := sort_by date_leb (unique_dates (map date df)) in
  map fst (f_rows (pivot_table df)) = dates /\
  StronglySorted (fun a b => date_leb a b = true) dates /\
  NoDup dates /\
  (forall dt, In dt dates <-> exists r, In r df /\ date r = dt).
Proof.
  intros dates.
  assert (P : Permutation (unique_dates (map date df)) dates)
    by apply sort_by_perm.
  split.
  { unfold pivot_table. cbn [f_rows]. rewrite map_map. cbn [fst].
    apply map_id. }
  split.
  { apply (sort_by_sorted date_leb (fun _ => True)).
    - intros x y _ _. apply date_leb_total.
    - apply date_leb_trans.
    - apply Forall_forall. auto. }
  split.
  { apply (Permutation_NoDup P). apply unique_dates_NoDup. }
  intros dt. split.
  - intros H. apply (Permutation_in _ (Permutation_sym P)) in H.
    apply (proj1 (unique_dates_In _ _)) in H. apply in_map_iff in H.
    destruct H as [r [E H]]. eauto.
  - intros [r [H E]]. apply (Permutation_in _ P).
    apply (proj2 (unique_dates_In _ _)). apply in_map_iff. eauto.
Qed.

Lemma pivot_table_widths (df : DataFrame) :
  Forall (fun row => List.length (snd row)
                     = List.length (group_keys (col_ticker df)))
    (f_rows (pivot_table df)).
Proof.
  apply Forall_forall. intros row H. unfold pivot_table in H.
  cbn [f_rows] in H. apply in_map_iff in H. destruct H as [dt [<- _]].
  cbn [snd]. apply length_map.
Qed.

Lemma pivot_table_row (df : DataFrame) (s : nat) (dt : Date)
    (r : list fval) :
  nth_error (f_rows (pivot_table df)) s = Some (dt, r) ->
  r = map (pivot_cell df dt) (group_keys (col_ticker df)).
Proof.
  unfold pivot_table. cbn [f_rows]. rewrite nth_error_map.
  destruct (nth_error _ s) as [d0|]; [|discriminate].
  cbn [option_map]. intros H. injection H as <- <-. reflexivity.
Qed.

(** X17.  A row of the return frame that line 121 keeps has a return for
    every ticker, and its date is a date of the data on which every ticker
    already has a record of an earlier date: the correlations use no date
    up to and including the first date of the ticker that starts last. *)
Theorem returns_rows_after_all_listed (raw : DataFrame) (dt : Date)
    (row : list fval) :
  let df := preprocess raw in
  In (dt, row) (f_rows (returns df)) ->
  List.length row = List.length (group_keys (col_ticker df)) /\
  Forall (fun v => isna v = false) row /\
  (exists r, In r df /\ date r = dt) /\
  (forall g, In g (col_ticker df) ->
     exists r, In r df /\ ticker r = g /\
               date_leb (date r) dt = true /\ date r <> dt).
Proof.
  intros df H. rewrite returns_rows_unfold in H. cbv zeta in H.
  set (ks := group_keys (col_ticker df)) in *.
  set (k := List.length ks) in *.
  set (padded := ffill_rows (repeat NaN k) (f_rows (pivot_table df))) in *.
  set (pct := pct_change_rows (repeat NaN k) padded) in *.
  apply filter_In in H. destruct H as [Hin Hall]. cbn [snd] in Hall.
  destruct (pivot_dates_sorted df) as [Hdates [Hsorted [Hnodup Hdate_in]]].
  set (dates := sort_by date_leb (unique_dates (map date df))) in *.
  assert (Hpd : map fst padded = dates).
  { unfold padded. rewrite ffill_rows_dates. exact Hdates. }
  assert (Hcd : map fst pct = dates).
  { unfold pct. rewrite pct_change_rows_dates. exact Hpd. }
  assert (Hwp : Forall (fun r => List.length (snd r) = k) padded).
  { apply ffill_rows_widths; [apply repeat_length|].
    apply pivot_table_widths. }
  assert (Hwc : Forall (fun r => List.length (snd r) = k) pct).
  { apply pct_change_rows_widths; [apply repeat_length | exact Hwp]. }
  assert (Hlen : List.length row = k).
  { rewrite Forall_forall in Hwc. apply (Hwc (dt, row) Hin). }
  destruct (In_nth_error _ _ Hin) as [t Ht].
  assert (Hdt : nth_error dates t = Some dt).
  { rewrite <- Hcd. apply (map_nth_error fst t pct Ht). }
  split; [exact Hlen|]. split.
  { apply Forall_forall. intros v Hv. rewrite forallb_forall in Hall.
    apply negb_true_iff. apply Hall. exact Hv. }
  split.
  { apply Hdate_in. apply (nth_error_In _ _ Hdt). }
  intros g Hg.
  assert (Hgk : In g ks) by (apply group_keys_In; exact Hg).
  destruct (In_nth ks g "" Hgk) as [j [Hj Hgj]]. fold k in Hj.
  assert (Hcell : isna (nth j row NaN) = false).
  { apply forallb_nth_notna; [exact Hall | lia]. }
  pose proof (pct_change_rows_source _ _ t j dt row Ht Hcell) as Hsrc.
  destruct t as [|t'].
  { rewrite nth_repeat_NaN in Hsrc. discriminate. }
  destruct Hsrc as [d1 [r1 [Hn1 Hc1]]].
  destruct (ffill_rows_source _ _ t' j d1 r1 Hn1 Hc1)
    as [Hp|[s [d2 [r2 [Hs [Hn2 Hc2]]]]]].
  { rewrite nth_repeat_NaN in Hp. discriminate. }
  pose proof (pivot_table_row df s d2 r2 Hn2) as Er2. fold ks in Er2.
  assert (Hc : isna (pivot_cell df d2 g) = false).
  { rewrite <- Hgj.
    rewrite <- (map_nth (pivot_cell df d2) ks "" j).
    rewrite <- Er2.
    rewrite (nth_indep r2 (pivot_cell df d2 "") NaN); [exact Hc2|].
    rewrite Er2, length_map. exact Hj. }
  destruct (pivot_cell_record df d2 g Hc) as [r [Hr [Hrd Hrt]]].
  exists r. split; [exact Hr|]. split; [exact Hrt|].
  assert (Hd2 : nth_error dates s = Some d2).
  { rewrite <- Hdates. apply (map_nth_error fst s _ Hn2). }
  rewrite Hrd. split.
  - apply (StronglySorted_nth_error _ dates s (S t') d2 dt Hsorted);
      [lia | exact Hd2 | exact Hdt].
  - intros E. subst d2.
    pose proof (proj1 (NoDup_nth_error dates) Hnodup s (S t')) as Hinj.
    assert (Hlt : (s < List.length dates)%nat).
    { apply nth_error_Some. congruence. }
    specialize (Hinj Hlt). rewrite Hd2, Hdt, E in Hinj.
    specialize (Hinj eq_refl). lia.
Qed.

Lemma returns_rows_after_all_listed_witness :
  exists r, In r (preprocess late_listing) /\ ticker r = "f" /\
            date_leb (date r) (ymd 2024 1 4) = true /\
            date r <> ymd 2024 1 4.
Proof.
  refine (proj2 (proj2 (proj2
            (returns_rows_after_all_listed late_listing (ymd 2024 1 4)
               [Num (1 # 12); Num (1 # 20)] _))) "f" _).
  - vm_compute. left. reflexivity.
  - vm_compute. auto.
Defined.

(** ** The cells of the pivot (line 120) *)

Lemma nth_zip_with {A B C : Type} (f : A -> B -> C) (l : list A)
    (m : list B) (j : nat) (da : A) (db : B) (dc : C) :
  (j < List.length l)%nat -> (j < List.length m)%nat ->
  nth j (zip_with f l m) dc = f (nth j l da) (nth j m db).
Proof.
  revert m j. induction l as [|a l IH]; intros [|b m] [|j] Hl Hm;
    simpl in *; try lia; auto.
  apply IH; lia.
Qed.

Lemma Qsum_single (c : Q) : Qsum [c] == c.
Proof. unfold Qsum. simpl. ring. Qed.

(** X18.  A cell of the pivot, before padding, belongs to one date and one
    ticker: it is null when the ticker has no record of that date, the
    close when it has one, and the mean of the closes when it has
    several. *)
Theorem pivot_table_cell_spec (raw : DataFrame) (s j : nat) (dt : Date)
    (row : list fval) (g : string) :
  let df := preprocess raw in
  let cell := nth j row NaN in
  let rs := records_on df dt g in
  nth_error (f_rows (pivot_table df)) s = Some (dt, row) ->
  nth_error (f_columns (pivot_table df)) j = Some g ->
  (rs = [] -> cell = NaN) /\
  (rs <> [] -> cell = Num (Qmean (map close rs))) /\
  (forall r, rs = [r] -> cell =f= Num (close r)).
Proof.
  intros df cell rs Hrow Hcol.
  apply pivot_table_row in Hrow. cbn [pivot_table f_columns] in Hcol.
  assert (Hcell : cell = pivot_cell df dt g).
  { unfold cell. rewrite Hrow.
    assert (Hj : (j < List.length (group_keys (col_ticker df)))%nat).
    { apply nth_error_Some. congruence. }
    rewrite (nth_indep _ NaN (pivot_cell df dt "")) by (rewrite length_map; exact Hj).
    rewrite map_nth. f_equal.
    apply nth_error_nth. exact Hcol. }
  assert (Hmean : rs <> [] -> cell = Num (Qmean (map close rs))).
  { intros Hne. rewrite Hcell. unfold pivot_cell. fold (records_on df dt g).
    fold rs. rewrite <- (map_map close Num).
    rewrite mean_Num; [unfold Qmean, Qnat; rewrite length_map; reflexivity|].
    destruct rs; [congruence | discriminate]. }
  split; [|split].
  - intros E. rewrite Hcell. unfold pivot_cell. fold (records_on df dt g).
    fold rs. rewrite E. reflexivity.
  - exact Hmean.
  - intros r E. rewrite Hmean by (rewrite E; discriminate).
    rewrite E. simpl. unfold Qmean. rewrite Qsum_single. simpl.
    unfold Qdiv. change (inject_Z (Z.of_nat 1)) with 1. field.
Qed.

Lemma pivot_table_cell_spec_witness :
  nth 0 [Num (Qmean [10; 14]); NaN] NaN = Num (Qmean [10; 14]).
Proof.
  refine (proj1 (proj2 (pivot_table_cell_spec double_entry 0 0 (ymd 2024 1 1)
            [Num (Qmean [10; 14]); NaN] "h" _ _)) _).
  - reflexivity.
  - reflexivity.
  - discriminate.
Defined.

(** ** Padding (line 120, [ffill]) *)

Lemma ffill_rows_head (prev : list fval) (rows : list (Date * list fval))
    (dt : Date) (r0 r : list fval) :
  nth_error rows 0 = Some (dt, r0) ->
  nth_error (ffill_rows prev rows) 0 = Some (dt, r) ->
  r = zip_with (fun p x => if isna x then p else x) prev r0.
Proof.
  destruct rows as [|[d0 x] rs]; [discriminate|]. simpl.
  intros H0 H. injection H0 as -> ->. injection H as <-. reflexivity.
Qed.

Lemma ffill_rows_step (prev : list fval) (rows : list (Date * list fval))
    (t : nat) (dt dt' : Date) (r r' r0 : list fval) :
  nth_error (ffill_rows prev rows) t = Some (dt, r) ->
  nth_error (ffill_rows prev rows) (S t) = Some (dt', r') ->
  nth_error rows (S t) = Some (dt', r0) ->
  r' = zip_with (fun p x => if isna x then p else x) r r0.
Proof.
  revert prev t. induction rows as [|[d0 x] rs IH]; intros prev t H H' H0.
  - destruct t; discriminate.
  - cbn [ffill_rows] in H, H'. destruct t as [|t].
    + cbn [nth_error] in H, H', H0. injection H as <- <-.
      apply (ffill_rows_head _ rs dt' r0 r' H0 H').
    + cbn [nth_error] in H, H', H0. apply (IH _ t H H' H0).
Qed.

Lemma fill_cell (p x : list fval) (j : nat) :
  (j < List.length p)%nat -> (j < List.length x)%nat ->
  nth j (zip_with (fun a b => if isna b then a else b) p x) NaN
  = if isna (nth j x NaN) then nth j p NaN else nth j x NaN.
Proof.
  intros Hp Hx.
  exact (nth_zip_with (fun a b : fval => if isna b then a else b)
           p x j NaN NaN NaN Hp Hx).
Qed.

(** X19.  Padding never changes a cell that has a value, and fills a null
    cell with the cell above it in the padded frame: a ticker that has a
    price on one date has one on every later date of the pivot, the price
    of its latest record so far. *)
Theorem pivot_padding_spec (raw : DataFrame) (s j : nat) (dt : Date)
    (row row0 : list fval) :
  let df := preprocess raw in
  nth_error (f_rows (pivot df)) s = Some (dt, row) ->
  nth_error (f_rows (pivot_table df)) s = Some (dt, row0) ->
  (j < List.length (f_columns (pivot df)))%nat ->
  (isna (nth j row0 NaN) = false -> nth j row NaN = nth j row0 NaN) /\
  (s = 0%nat -> nth j row NaN = nth j row0 NaN) /\
  (forall dt' row' row0',
     nth_error (f_rows (pivot df)) (S s) = Some (dt', row') ->
     nth_error (f_rows (pivot_table df)) (S s) = Some (dt', row0') ->
     nth j row' NaN
     = (if isna (nth j row0' NaN) then nth j row NaN else nth j row0' NaN)
     /\ (isna (nth j row NaN) = false -> isna (nth j row' NaN) = false)).
Proof.
  intros df H H0 Hj.
  unfold pivot, frame_ffill in H, Hj |- *. cbn [f_rows f_columns] in *.
  change (f_columns (pivot_table df)) with (group_keys (col_ticker df)) in *.
  set (k := List.length (group_keys (col_ticker df))) in *.
  assert (Hw0 : Forall (fun r => List.length (snd r) = k)
                  (f_rows (pivot_table df))) by apply pivot_table_widths.
  assert (Hw : Forall (fun r => List.length (snd r) = k)
                 (ffill_rows (repeat NaN k) (f_rows (pivot_table df)))).
  { apply ffill_rows_widths; [apply repeat_length | exact Hw0]. }
  assert (Hlen : forall (l : list (Date * list fval)) t d (r : list fval),
            Forall (fun r => List.length (snd r) = k) l ->
            nth_error l t = Some (d, r) -> List.length r = k).
  { intros l t d r Hf Hn. rewrite Forall_forall in Hf.
    apply (Hf (d, r)). apply (nth_error_In _ _ Hn). }
  pose proof (Hlen _ _ _ _ Hw H) as Lrow.
  pose proof (Hlen _ _ _ _ Hw0 H0) as Lrow0.
  assert (Hcur : nth j row NaN
                 = if isna (nth j row0 NaN)
                   then nth j row NaN else nth j row0 NaN).
  { destruct s as [|s'].
    - rewrite (ffill_rows_head _ _ dt row0 row H0 H) at 1.
      rewrite fill_cell by (rewrite ?repeat_length; lia).
      rewrite nth_repeat_NaN.
      destruct (isna (nth j row0 NaN)) eqn:E; [|reflexivity].
      rewrite (ffill_rows_head _ _ dt row0 row H0 H).
      rewrite fill_cell by (rewrite ?repeat_length; lia).
      rewrite E, nth_repeat_NaN. reflexivity.
    - destruct (isna (nth j row0 NaN)) eqn:E; [reflexivity|].
      destruct (nth_error
                  (ffill_rows (repeat NaN k) (f_rows (pivot_table df))) s')
        as [[d1 r1]|] eqn:E1.
      + rewrite (ffill_rows_step _ _ s' d1 dt r1 row row0 E1 H H0).
        rewrite fill_cell; [rewrite E; reflexivity | | lia].
        rewrite (Hlen _ _ _ _ Hw E1). exact Hj.
      + exfalso. apply nth_error_None in E1.
        assert (S s' < List.length
                  (ffill_rows (repeat NaN k) (f_rows (pivot_table df))))%nat.
        { apply nth_error_Some. congruence. }
        lia. }
  split.
  { intros E. rewrite Hcur, E. reflexivity. }
  split.
  { intros ->. rewrite (ffill_rows_head _ _ dt row0 row H0 H).
    rewrite fill_cell by (rewrite ?repeat_length; lia).
    rewrite nth_repeat_NaN. destruct (nth j row0 NaN); reflexivity. }
  intros dt' row' row0' H' H0'.
  pose proof (Hlen _ _ _ _ Hw0 H0') as Lrow0'.
  assert (Hnext : nth j row' NaN
                  = if isna (nth j row0' NaN)
                    then nth j row NaN else nth j row0' NaN).
  { rewrite (ffill_rows_step _ _ s dt dt' row row' row0' H H' H0').
    apply fill_cell; lia. }
  split; [exact Hnext|].
  intros E. rewrite Hnext.
  destruct (isna (nth j row0' NaN)) eqn:E'; [exact E | exact E'].
Qed.

Lemma pivot_padding_spec_witness :
  nth 0 [Num 16; Num 3] NaN = nth 0 [Num 16; NaN] NaN.
Proof.
  refine (proj1 (pivot_padding_spec double_entry 2 0 (ymd 2024 1 3)
            [Num 16; Num 3] [Num 16; NaN] _ _ _) _).
  - reflexivity.
  - reflexivity.
  - vm_compute. lia.
  - reflexivity.
Defined.

(** * Date order of a ticker's records *)

Lemma date_leb_refl (a : Date) : date_leb a a = true.
Proof. destruct (date_leb_total a a); assumption. Qed.

(** The first record of a ticker in the sorted frame is its earliest record,
    and the last one its latest. *)
Lemma records_of_first_last (raw : DataFrame) (g : string)
    (first_rec : PriceRecord) :
  let rs := records_of g (preprocess raw) in
  nth_error rs 0 = Some first_rec ->
  In first_rec (records_of g (map normalise raw)) /\
  In (last rs first_rec) (records_of g (map normalise raw)) /\
  (forall r, In r (records_of g (map normalise raw)) ->
     date_leb (date first_rec) (date r) = true /\
     date_leb (date r) (date (last rs first_rec)) = true).
Proof.
  intros rs Hfirst.
  pose proof (records_of_chronological raw g) as Hs. fold rs in Hs.
  pose proof (records_of_perm raw g) as Hp. fold rs in Hp.
  assert (Hback : forall r, In r rs -> In r (records_of g (map normalise raw))).
  { intros r. apply Permutation_in. symmetry. exact Hp. }
  assert (Hfwd : forall r, In r (records_of g (map normalise raw)) -> In r rs).
  { intros r. apply Permutation_in. exact Hp. }
  clearbody rs. destruct rs as [|r0 rest]; [discriminate|].
  injection Hfirst as ->.
  split; [apply Hback; left; reflexivity|].
  destruct (exists_last (l := first_rec :: rest)) as [pre [lst E]];
    [discriminate|].
  rewrite E, last_last.
  split; [apply Hback; rewrite E; apply in_or_app; right; left; reflexivity|].
  intros r Hr. apply Hfwd in Hr. split.
  - inversion Hs as [|? ? _ Hall]; subst.
    destruct Hr as [<-|Hr]; [apply date_leb_refl|].
    rewrite Forall_forall in Hall. apply Hall. exact Hr.
  - rewrite E in Hs, Hr. apply in_app_or in Hr.
    destruct Hr as [Hr|[<-|[]]]; [|apply date_leb_refl].
    apply (StronglySorted_app_inv _ pre [lst] r lst Hs Hr).
    left. reflexivity.
Qed.

(** C9.  The first record of a ticker in the sorted frame is the earliest
    of the records of the ticker, and the cumulative return stored on it is
    exactly 1, whatever the prices are. *)
Theorem first_cumulative_return_is_one (raw : DataFrame) (g : string)
    (r : PriceRecord) :
  let df := preprocess raw in
  nth_error (records_of g df) 0 = Some r ->
  In r (records_of g (map normalise raw)) /\
  (forall r', In r' (records_of g (map normalise raw)) ->
     date_leb (date r) (date r') = true) /\
  List.length (column_of g df (col_cumulative_return df))
  = List.length (records_of g df) /\
  nth_error (column_of g df (col_cumulative_return df)) 0 = Some (Num 1).
Proof.
  intros df Hr.
  destruct (records_of_first_last raw g r Hr) as [Hin [_ Hord]].
  split; [exact Hin|]. split; [intros r' Hr'; apply (Hord r' Hr')|].
  rewrite cumulative_return_of_group, daily_return_of_group.
  split.
  { rewrite compound_length, pct_change_length. unfold closes_of.
    rewrite !length_map. reflexivity. }
  unfold closes_of. fold df.
  destruct (records_of g df) as [|r0 rs]; [discriminate|].
  reflexivity.
Qed.

Lemma first_cumulative_return_is_one_witness :
  date_leb (ymd 2024 1 1) (ymd 2024 3 15) = true /\
  nth_error (column_of "x" (preprocess gapped)
               (col_cumulative_return (preprocess gapped))) 0
  = Some (Num 1).
Proof.
  pose proof (first_cumulative_return_is_one gapped "x"
                (mkPrice "x" (ymd 2024 1 1) 4) eq_refl) as [_ [Hord [_ H1]]].
  split; [|exact H1].
  apply (Hord (mkPrice "x" (ymd 2024 3 15) 6)). left. reflexivity.
Defined.

(** C4 (amended).  The records of a ticker in the sorted frame are its
    records in date order, the first the earliest and the last the latest.
    When the first close is not zero the yearly return is (last close -
    first close) / first close; every record of the ticker carries the
    yearly return of the ticker.  For a ticker with one record only it is 0
    when the close is not zero, and null when the close is zero. *)
Theorem yearly_return_spec (raw : DataFrame) (g : string)
    (first_rec : PriceRecord) :
  let df := preprocess raw in
  let rs := records_of g df in
  let last_rec := last rs first_rec in
  nth_error rs 0 = Some first_rec ->
  StronglySorted (fun a b => date_leb (date a) (date b) = true) rs /\
  Permutation (records_of g (map normalise raw)) rs /\
  (forall r, In r (records_of g (map normalise raw)) ->
     date_leb (date first_rec) (date r) = true /\
     date_leb (date r) (date last_rec) = true) /\
  (~ close first_rec == 0 ->
   series_get (df_yearly df) g
   = Num ((close last_rec - close first_rec) / close first_rec)) /\
  (forall i, nth_error (col_ticker df) i = Some g ->
             nth_error (col_yearly_return df) i
             = Some (series_get (df_yearly df) g)) /\
  (List.length rs = 1%nat -> ~ close first_rec == 0 ->
   series_get (df_yearly df) g =f= Num 0) /\
  (List.length rs = 1%nat -> close first_rec == 0 ->
   series_get (df_yearly df) g = NaN).
Proof.
  intros df rs last_rec Hfirst.
  assert (Hin : In g (col_ticker df)).
  { apply (records_of_In_ticker df g first_rec).
    apply nth_error_In with (n := 0%nat). exact Hfirst. }
  assert (Hy : series_get (df_yearly df) g
               = fdiv (fsub (Num (close last_rec)) (Num (close first_rec)))
                      (Num (close first_rec))).
  { rewrite df_yearly_get by exact Hin.
    unfold yearly_of, closes_of. fold rs. unfold last_rec.
    destruct rs as [|r0 rs'] eqn:Ers; [discriminate|].
    injection Hfirst as ->.
    change (map close (first_rec :: rs'))
      with (close first_rec :: map close rs').
    rewrite first_valid_closes, last_valid_closes.
    change (close first_rec :: map close rs')
      with (map close (first_rec :: rs')).
    rewrite (last_map_default close (first_rec :: rs') first_rec)
      by discriminate.
    reflexivity. }
  assert (Hformula : ~ close first_rec == 0 ->
            series_get (df_yearly df) g
            = Num ((close last_rec - close first_rec) / close first_rec)).
  { intros Hnz. rewrite Hy. cbn [fsub fdiv].
    destruct (Qeq_bool (close first_rec) 0) eqn:E; [|reflexivity].
    apply Qeq_bool_eq in E. contradiction. }
  assert (Hone : List.length rs = 1%nat -> last_rec = first_rec).
  { intros Hlen. unfold last_rec.
    destruct rs as [|r0 [|r1 rs']]; try discriminate.
    injection Hfirst as ->. reflexivity. }
  split; [apply records_of_chronological|].
  split; [apply records_of_perm|].
  split.
  { intros r Hr.
    apply (proj2 (proj2 (records_of_first_last raw g first_rec Hfirst)) r Hr). }
  split; [exact Hformula|].
  split.
  { intros i Hi. unfold col_yearly_return. apply map_nth_error. exact Hi. }
  split.
  - intros Hlen Hnz. rewrite (Hformula Hnz), (Hone Hlen).
    simpl. field. exact Hnz.
  - intros Hlen Hz. rewrite Hy, (Hone Hlen). cbn [fsub fdiv].
    apply Qeq_eq_bool in Hz. rewrite Hz.
    unfold inf_of_sign.
    assert (E : close first_rec - close first_rec == 0) by ring.
    rewrite E. reflexivity.
Qed.

Lemma yearly_return_spec_witness :
  let first_rec := mkPrice "x" (ymd 2024 1 1) 4 in
  let last_rec := last (records_of "x" (preprocess gapped)) first_rec in
  close last_rec = 6 /\
  series_get (df_yearly (preprocess gapped)) "x"
  = Num ((close last_rec - close first_rec) / close first_rec).
Proof.
  split; [reflexivity|].
  refine (proj1 (proj2 (proj2 (proj2
            (yearly_return_spec gapped "x"
               (mkPrice "x" (ymd 2024 1 1) 4) eq_refl)))) _).
  discriminate.
Defined.

(** C4 as stated fails: a ticker with one record, of close 0, has a null
    yearly return, not 0. *)
Lemma yearly_return_single_zero_counterexample :
  let df := preprocess single_zero_close in
  records_of "nil" df = [mkPrice "nil" (ymd 2024 1 1) 0] /\
  series_get (df_yearly df) "nil" = NaN /\
  nth_error (col_yearly_return df) 0 = Some NaN /\
  ~ series_get (df_yearly df) "nil" =f= Num 0.
Proof.
  cbv zeta. repeat split; try reflexivity.
  vm_compute. auto.
Qed.

(** C10.  The monthly export holds the rows of the monthly table, one for
    each ticker with a record in the month and no other, in the order the
    table is sorted in: the monthly returns go down the file in descending
    order, rows with a null return last. *)
Theorem csv_month_descending (raw : DataFrame) (m : Month) :
  let df := preprocess raw in
  let c := csv_month df m in
  let table := monthly_return df m in
  let vs := map m_monthly_return table in
  csv_header c = ["ticker"; "first"; "last"; "monthly_return"] /\
  csv_rows c
  = map (fun r => [CStr (m_ticker r); CNum (m_first r); CNum (m_last r);
                   CNum (m_monthly_return r)]) table /\
  Permutation (monthly_agg df m) table /\
  NoDup (map m_ticker table) /\
  (forall g, In g (map m_ticker table) <->
             exists r, In r df /\ ticker r = g /\ to_period_M (date r) = m) /\
  csv_column "ticker" c = Some (map CStr (map m_ticker table)) /\
  csv_column "monthly_return" c = Some (map CNum vs) /\
  StronglySorted desc_nan_last vs /\
  (Forall (fun v => isna v = false) vs ->
   StronglySorted (fun a b => fleb b a = true) vs).
Proof.
  intros df c table vs.
  assert (Hs : StronglySorted desc_nan_last vs).
  { apply StronglySorted_map. apply sort_values_desc_sorted. }
  assert (Hp : Permutation (monthly_agg df m) table)
    by apply sort_values_desc_perm.
  assert (Hpt : Permutation (group_keys (col_ticker (monthly df m)))
                            (map m_ticker table)).
  { rewrite <- monthly_agg_tickers. apply Permutation_map. exact Hp. }
  split; [reflexivity|].
  split; [reflexivity|].
  split; [exact Hp|].
  split; [apply (Permutation_NoDup Hpt); apply group_keys_NoDup|].
  split.
  { intros g.
    transitivity (In g (group_keys (col_ticker (monthly df m)))).
    { split; apply Permutation_in; [symmetry|]; exact Hpt. }
    rewrite group_keys_In. unfold col_ticker, monthly. rewrite in_map_iff.
    split; intros [r [H1 H2]]; exists r.
    - apply filter_In in H2. destruct H2 as [H2 H3].
      apply month_eqb_eq in H3. auto.
    - destruct H2 as [H2 H3]. split; [exact H2|].
      apply filter_In. split; [exact H1|]. apply month_eqb_eq. exact H3. }
  split; [unfold csv_column; simpl; rewrite !map_map; reflexivity|].
  split; [unfold csv_column, vs; simpl; rewrite !map_map; reflexivity|].
  split; [exact Hs|].
  intros Hna. clear -Hs Hna.
  induction Hs as [|x r Hs IH Hx]; constructor.
  - apply IH. inversion Hna; assumption.
  - inversion Hna as [|? ? _ Hr]; subst.
    rewrite Forall_forall in *. intros b Hb.
    destruct (Hx b Hb) as [H|H]; [|exact H].
    rewrite (Hr b Hb) in H. discriminate.
Qed.

Lemma csv_month_descending_witness :
  List.length (csv_rows (csv_month (preprocess january_partial) (2024, 2)%Z))
  = 2%nat /\
  StronglySorted (fun a b => fleb b a = true)
    (map m_monthly_return
       (monthly_return (preprocess january_partial) (2024, 2)%Z)).
Proof.
  split; [reflexivity|].
  apply (proj2 (proj2 (proj2 (proj2 (proj2 (proj2 (proj2 (proj2
           (csv_month_descending january_partial (2024, 2)%Z))))))))).
  repeat constructor.
Defined.

(** * The volatility ranking *)

Lemma volatility_ranking_sorted (df : DataFrame) :
  StronglySorted
    (fun a b : string * root =>
       desc_nan_last (radicand (snd a)) (radicand (snd b)))
    (sort_values_desc (fun kv => radicand (snd kv))
       (groupby_agg std (col_ticker df) (col_daily_return df))).
Proof. apply sort_values_desc_sorted. Qed.

(** C6 (amended).  The volatility list has the 10 tickers of largest
    standard deviation, or all tickers when there are fewer: one entry per
    listed ticker, holding the sample standard deviation of the daily
    returns of the ticker, nulls excluded (the root of the sum of the
    squared deviations from the mean over the number of observations less
    one), in descending order, nulls last, and no ticker left out has a
    larger standard deviation than a listed one.  A ticker with fewer than
    2 daily returns that are not null has a null standard deviation; it is
    not dropped: it ranks after the tickers with a defined one, so it is
    listed only when all of those are, and it is listed whenever the data
    has at most 10 tickers. *)
Theorem volatility_spec (raw : DataFrame) :
  let df := preprocess raw in
  let vol := volatility df in
  let sd := fun g => std (column_of g df (col_daily_return df)) in
  (List.length vol <= 10)%nat /\
  List.length vol = Nat.min 10 (List.length (group_keys (col_ticker df))) /\
  NoDup (map fst vol) /\
  (forall g s, In (g, s) vol -> In g (col_ticker df) /\ s = sd g) /\
  (forall g s qs, In (g, s) vol ->
     dropna (column_of g df (col_daily_return df)) = map Num qs ->
     (2 <= List.length qs)%nat ->
     s = Sqrt (Num (Qvar qs)) /\ root_R s = Some (sqrt (Q2R (Qvar qs)))) /\
  StronglySorted desc_nan_last (map (fun kv => radicand (snd kv)) vol) /\
  StronglySorted (fun e1 e2 => root_ge (snd e1) (snd e2)) vol /\
  (forall g s h, In (g, s) vol -> In h (col_ticker df) ->
     ~ In h (map fst vol) ->
     desc_nan_last (radicand s) (radicand (sd h)) /\ root_ge s (sd h)) /\
  (forall g s h, In (g, s) vol -> isna (radicand s) = true ->
     In h (col_ticker df) -> isna (radicand (sd h)) = false ->
     In h (map fst vol)) /\
  (forall g s, In (g, s) vol ->
     (count (column_of g df (col_daily_return df)) < 2)%nat ->
     s = Sqrt NaN) /\
  ((List.length (group_keys (col_ticker df)) <= 10)%nat ->
   forall g, In g (col_ticker df) -> In g (map fst vol)).
Proof.
  intros df vol sd. unfold vol, volatility, head.
  set (ranking := sort_values_desc (fun kv => radicand (snd kv))
                    (groupby_agg std (col_ticker df) (col_daily_return df))).
  assert (Hkeys : Permutation (group_keys (col_ticker df)) (map fst ranking)).
  { unfold ranking. rewrite <- sort_values_desc_perm.
    rewrite groupby_agg_keys. reflexivity. }
  assert (Hrank : forall g s, In (g, s) ranking <->
                              In g (col_ticker df) /\ s = sd g).
  { intros g s. apply volatility_ranking_items. }
  assert (Hitem : forall g s, In (g, s) (firstn 10 ranking) ->
            In g (col_ticker df) /\ s = sd g).
  { intros g s H. apply firstn_In in H. apply Hrank. exact H. }
  assert (Hsorted : StronglySorted
            (fun a b : string * root =>
               desc_nan_last (radicand (snd a)) (radicand (snd b)))
            ranking) by apply volatility_ranking_sorted.
  assert (Hdom : forall g s h, In (g, s) (firstn 10 ranking) ->
            In h (col_ticker df) -> ~ In h (map fst (firstn 10 ranking)) ->
            desc_nan_last (radicand s) (radicand (sd h))).
  { intros g s h Hg Hh Hout.
    assert (Hhr : In (h, sd h) ranking) by (apply Hrank; auto).
    pose proof (sorted_firstn_skipn _ ranking 10 10 (g, s) (h, sd h)
                  Hsorted (le_n 10) Hg) as Hd.
    apply Hd.
    rewrite <- (firstn_skipn 10 ranking) in Hhr. apply in_app_or in Hhr.
    destruct Hhr as [Hhr|Hhr]; [|exact Hhr].
    exfalso. apply Hout. apply (in_map fst) in Hhr. exact Hhr. }
  split; [apply firstn_le_length|].
  split.
  { rewrite length_firstn, (Permutation_length Hkeys), length_map.
    reflexivity. }
  split.
  { rewrite <- firstn_map. apply firstn_NoDup.
    apply (Permutation_NoDup Hkeys). apply group_keys_NoDup. }
  split; [exact Hitem|].
  split.
  { intros g s qs H E Hn. destruct (Hitem g s H) as [_ ->].
    unfold sd, std. rewrite (var_finite _ qs E Hn). split; reflexivity. }
  split.
  { apply StronglySorted_map, firstn_StronglySorted. exact Hsorted. }
  split.
  { apply firstn_StronglySorted.
    apply StronglySorted_weaken
      with (R := fun a b : string * root =>
                   desc_nan_last (radicand (snd a)) (radicand (snd b)));
      [|exact Hsorted].
    intros a b. apply desc_root_ge. }
  split.
  { intros g s h Hg Hh Hout.
    pose proof (Hdom g s h Hg Hh Hout) as Hd.
    split; [exact Hd | apply desc_root_ge; exact Hd]. }
  split.
  { intros g s h Hg Hnull Hh Hdef.
    destruct (in_dec string_dec h (map fst (firstn 10 ranking)))
      as [Hin|Hout]; [exact Hin|].
    exfalso. destruct (Hdom g s h Hg Hh Hout) as [H|H].
    - congruence.
    - destruct (radicand (sd h)), (radicand s); simpl in *; discriminate. }
  split.
  { intros g s H Hfew. destruct (Hitem g s H) as [_ ->].
    unfold sd, std. rewrite var_few by exact Hfew. reflexivity. }
  intros Hlen g Hg.
  rewrite firstn_all2.
  - apply (Permutation_in _ Hkeys). apply group_keys_In. exact Hg.
  - rewrite <- (length_map fst), <- (Permutation_length Hkeys). exact Hlen.
Qed.

Lemma volatility_spec_witness :
  In "solo" (map fst (volatility (preprocess single_record))) /\
  desc_nan_last
    (radicand (std (column_of "l" (preprocess twelve_movers)
                      (col_daily_return (preprocess twelve_movers)))))
    (radicand (std (column_of "a" (preprocess twelve_movers)
                      (col_daily_return (preprocess twelve_movers))))).
Proof.
  split.
  - apply (proj2 (proj2 (proj2 (proj2 (proj2 (proj2 (proj2 (proj2 (proj2
             (proj2 (volatility_spec single_record))))))))))).
    + vm_compute. lia.
    + left. reflexivity.
  - refine (proj1 (proj1 (proj2 (proj2 (proj2 (proj2 (proj2 (proj2 (proj2
              (volatility_spec twelve_movers))))))))
              "l" _ "a" _ _ _)).
    + vm_compute. left. reflexivity.
    + vm_compute. left. reflexivity.
    + vm_compute. intuition discriminate.
Defined.

(** C6 as stated fails: a ticker with a single record has no daily return
    that is not null, and it is on the volatility list, with a null
    standard deviation. *)
Lemma volatility_singleton_counterexample :
  let df := preprocess single_record in
  count (column_of "solo" df (col_daily_return df)) = 0%nat /\
  volatility df = [("solo", Sqrt NaN)].
Proof. split; reflexivity. Qed.

(** * The correlation matrix *)















(** For prices in geometric progression the returns are equal in exact
    arithmetic and not as floats: exact arithmetic leaves the entries of
    such a ticker to rounding. *)
Lemma corr_left_to_rounding :
  corr_at (preprocess geometric_prices) 0 0 = Some ByRounding /\
  corr_at (preprocess geometric_prices) 1 0 = Some ByRounding.
Proof. split; vm_compute; reflexivity. Qed.
